(** * Service registry of go-tenant-service: endpoint resolution and health tracking

    A shallow embedding of the routing core of the tenant service:
    - package [domain]: the configuration value types and the two derived
      views [GetActiveEndpoints] and [GetEndpointByPriority];
    - package [service]: the [ServiceRegistry] with its in-memory health
      table and round-robin cursor table, the load-balancing strategies
      and the health-aware fallback walk.

    Conventions of the embedding.
    - Go [int] is a 64-bit signed integer: values are [Z], and every
      addition the code performs is wrapped by [wrap_int].
    - [map[string]T] is a [gmap string T]; a map of pointers to records
      that are only reached through the map is a map of records.
    - [time.Now()] and [rand.Intn] are inputs: every call site receives
      the instant, resp. the draw function, as an argument.
    - a run-time panic (index out of range, [rand.Intn] on a non-positive
      bound) is [None].
    - the mutexes are held for the whole critical section of each method,
      so each method is one atomic state transition. *)

From Stdlib Require Import ZArith Lia.
From stdpp Require Import gmap strings list sorting.

Local Open Scope Z_scope.

(** ** Machine integers *)

Definition wrap_int (z : Z) : Z := (z + 2 ^ 63) mod 2 ^ 64 - 2 ^ 63.

Definition int_add (a b : Z) : Z := wrap_int (a + b).

Definition max_int : Z := 2 ^ 63 - 1.

(** [time.Time]; the zero value of the struct is [zeroTime]. *)
Definition Time := Z.
Definition zeroTime : Time := 0.

(** [s[i]] on a slice: panics outside [0, len). *)
Definition index {A} (l : list A) (i : Z) : option A :=
  if i <? 0 then None else l !! Z.to_nat i.

(** ** Package domain *)

Module domain.

Record ServiceEndpoint := {
  ep_URL : string;
  ep_Priority : Z;
  ep_Weight : Z;
  ep_Timeout : Z;
  ep_Headers : gmap string string;
  ep_IsActive : bool
}.

Record HealthCheckConfig := {
  hc_Enabled : bool;
  hc_Path : string;
  hc_Method : string;
  hc_Interval : Z;
  hc_Timeout : Z;
  hc_FailThreshold : Z
}.

Record ServiceConfig := {
  sc_TenantID : string;
  sc_ServiceName : string;
  sc_PrimaryEndpoint : ServiceEndpoint;
  sc_FallbackChain : list ServiceEndpoint;
  sc_DefaultServiceURL : string;
  sc_HealthCheck : HealthCheckConfig;
  sc_LoadBalanceStrategy : string;
  sc_IsActive : bool;
  sc_Metadata : gmap string string
}.

(** The health record, with the fields the registry reads and writes. *)
Record ServiceStatus := {
  st_TenantID : string;
  st_ServiceName : string;
  st_EndpointURL : string;
  st_IsHealthy : bool;
  st_LastChecked : Time;
  st_LastSuccessful : Time;
  st_LastFailure : Time;
  st_ConsecutiveFails : Z;
  st_LastError : string
}.

(** The resolution trace, with the fields the registry writes. *)
Record FallbackChainResult := {
  res_TenantID : string;
  res_ServiceName : string;
  res_ResolvedURL : string;
  res_UsedEndpoint : option ServiceEndpoint;
  res_IsDefault : bool;
  res_AttemptedURLs : list string;
  res_AttemptedAt : Time;
  res_Success : bool;
  res_Error : string
}.

Definition LoadBalanceRoundRobin : string := "round-robin".
Definition LoadBalanceRandom : string := "random".
Definition LoadBalanceWeighted : string := "weighted".
Definition LoadBalanceLeastConn : string := "least-conn".

Definition DefaultFailThreshold : Z := 3.

(** [GetActiveEndpoints]: the primary, when active, followed by the active
    entries of the fallback chain in declared order. *)
Definition GetActiveEndpoints (sc : ServiceConfig) : list ServiceEndpoint :=
  (if ep_IsActive (sc_PrimaryEndpoint sc) then [sc_PrimaryEndpoint sc] else [])
  ++ filter (fun e => ep_IsActive e = true) (sc_FallbackChain sc).

(** [endpoints[i], endpoints[j] = endpoints[j], endpoints[i]]. The indices
    the sort uses are always in range; outside it the list is unchanged. *)
Definition swap {A} (l : list A) (i j : nat) : list A :=
  match l !! i, l !! j with
  | Some x, Some y => <[j := x]> (<[i := y]> l)
  | _, _ => l
  end.

(** The body of the inner loop of [GetEndpointByPriority] at indices [i], [j]. *)
Definition sortStep (i : nat) (l : list ServiceEndpoint) (j : nat)
    : list ServiceEndpoint :=
  match l !! i, l !! j with
  | Some ei, Some ej =>
      if ep_Priority ej <? ep_Priority ei then swap l i j else l
  | _, _ => l
  end.

(** [for j := i + 1; j < len(endpoints); j++ { ... }] *)
Definition sortInner (l : list ServiceEndpoint) (i : nat) : list ServiceEndpoint :=
  foldl (sortStep i) l (seq (S i) (length l - S i)).

(** [for i := 0; i < len(endpoints); i++ { ... }] *)
Definition sortByPriority (l : list ServiceEndpoint) : list ServiceEndpoint :=
  foldl sortInner l (seq 0 (length l)).

Definition GetEndpointByPriority (sc : ServiceConfig) : list ServiceEndpoint :=
  sortByPriority (GetActiveEndpoints sc).

(** The error values of the package: the three error structs, each with
    its message, and an error built by [fmt.Errorf]. *)
Inductive Error :=
  | ValidationError (msg : string)
  | NotFoundError (msg : string)
  | ServiceError (msg : string)
  | Errorf (msg : string).

(** [err.Error()] *)
Definition errorMessage (e : Error) : string :=
  match e with
  | ValidationError msg | NotFoundError msg | ServiceError msg | Errorf msg => msg
  end.

Definition ErrTenantIDRequired : Error := ValidationError "tenant_id is required".
Definition ErrServiceNameRequired : Error := ValidationError "service_name is required".
Definition ErrPrimaryEndpointRequired : Error :=
  ValidationError "primary_endpoint is required".
Definition ErrServiceNotFound : Error := NotFoundError "service configuration not found".
Definition ErrNoHealthyEndpoint : Error := ServiceError "no healthy endpoint available".

Definition DefaultHealthCheckInterval : Z := 30.

(** [Validate]: [None] is the [nil] error. *)
Definition Validate (sc : ServiceConfig) : option Error :=
  if bool_decide (sc_TenantID sc = "") then Some ErrTenantIDRequired
  else if bool_decide (sc_ServiceName sc = "") then Some ErrServiceNameRequired
  else if bool_decide (ep_URL (sc_PrimaryEndpoint sc) = "") then
    Some ErrPrimaryEndpointRequired
  else None.

Definition IsHealthCheckEnabled (sc : ServiceConfig) : bool :=
  hc_Enabled (sc_HealthCheck sc).

Definition GetHealthCheckInterval (sc : ServiceConfig) : Z :=
  if hc_Interval (sc_HealthCheck sc) <=? 0 then DefaultHealthCheckInterval
  else hc_Interval (sc_HealthCheck sc).

(** The system-wide default of a service, with the fields the registry
    reads: the name and the URL it resolves to. *)
Record DefaultServiceConfig := {
  dc_ServiceName : string;
  dc_DefaultURL : string;
  dc_HealthCheck : HealthCheckConfig;
  dc_FallbackToDefault : bool
}.

End domain.

Import domain.

(** ** Package service: the health state tracker *)

Module service.

Record ServiceRegistry := {
  healthStatus : gmap string ServiceStatus;
  loadBalanceIdx : gmap string Z
}.

Definition NewServiceRegistry : ServiceRegistry :=
  {| healthStatus := ∅; loadBalanceIdx := ∅ |}.

(** [fmt.Sprintf("%s:%s:%s", tenantID, serviceName, url)] *)
Definition healthKey (tenantID serviceName url : string) : string :=
  tenantID +:+ ":" +:+ serviceName +:+ ":" +:+ url.

(** [fmt.Sprintf("%s:%s", tenantID, serviceName)] *)
Definition lbKey (tenantID serviceName : string) : string :=
  tenantID +:+ ":" +:+ serviceName.

(** The body of [UpdateHealthStatus] once the record exists. [now1] is the
    instant stamped into [LastChecked], [now2] the one of the second
    [time.Now()] of the taken branch. *)
Definition updateExisting (status : ServiceStatus) (now1 now2 : Time)
    (healthy : bool) : ServiceStatus :=
  if healthy then
    {| st_TenantID := st_TenantID status;
       st_ServiceName := st_ServiceName status;
       st_EndpointURL := st_EndpointURL status;
       st_IsHealthy := true;
       st_LastChecked := now1;
       st_LastSuccessful := now2;
       st_LastFailure := st_LastFailure status;
       st_ConsecutiveFails := 0;
       st_LastError := st_LastError status |}
  else
    let fails := int_add (st_ConsecutiveFails status) 1 in
    {| st_TenantID := st_TenantID status;
       st_ServiceName := st_ServiceName status;
       st_EndpointURL := st_EndpointURL status;
       st_IsHealthy := if 3 <=? fails then false else st_IsHealthy status;
       st_LastChecked := now1;
       st_LastSuccessful := st_LastSuccessful status;
       st_LastFailure := now2;
       st_ConsecutiveFails := fails;
       st_LastError := "health check failed" |}.

Definition UpdateHealthStatus (s : ServiceRegistry) (now1 now2 : Time)
    (tenantID serviceName url : string) (healthy : bool) : ServiceRegistry :=
  let key := healthKey tenantID serviceName url in
  match healthStatus s !! key with
  | None =>
      {| healthStatus :=
           <[key := {| st_TenantID := tenantID;
                       st_ServiceName := serviceName;
                       st_EndpointURL := url;
                       st_IsHealthy := healthy;
                       st_LastChecked := now1;
                       st_LastSuccessful := zeroTime;
                       st_LastFailure := zeroTime;
                       st_ConsecutiveFails := 0;
                       st_LastError := "" |}]> (healthStatus s);
         loadBalanceIdx := loadBalanceIdx s |}
  | Some status =>
      {| healthStatus :=
           <[key := updateExisting status now1 now2 healthy]> (healthStatus s);
         loadBalanceIdx := loadBalanceIdx s |}
  end.

Definition isEndpointHealthy (s : ServiceRegistry)
    (tenantID serviceName url : string) : bool :=
  match healthStatus s !! healthKey tenantID serviceName url with
  | None => true
  | Some status => st_IsHealthy status
  end.

Definition GetHealthStatus (s : ServiceRegistry) (now : Time)
    (tenantID serviceName url : string) : ServiceStatus :=
  match healthStatus s !! healthKey tenantID serviceName url with
  | None =>
      {| st_TenantID := tenantID;
         st_ServiceName := serviceName;
         st_EndpointURL := url;
         st_IsHealthy := true;
         st_LastChecked := now;
         st_LastSuccessful := zeroTime;
         st_LastFailure := zeroTime;
         st_ConsecutiveFails := 0;
         st_LastError := "" |}
  | Some status => status
  end.

(** The record [UpdateHealthStatus] stores on the first report for a key:
    the fields of its composite literal, the others at their zero value. *)
Definition freshStatus (tenantID serviceName url : string) (now : Time)
    (healthy : bool) : ServiceStatus :=
  {| st_TenantID := tenantID;
     st_ServiceName := serviceName;
     st_EndpointURL := url;
     st_IsHealthy := healthy;
     st_LastChecked := now;
     st_LastSuccessful := zeroTime;
     st_LastFailure := zeroTime;
     st_ConsecutiveFails := 0;
     st_LastError := "" |}.

(** A run of reports on one key: each element carries the outcome and the
    two instants read by that call. *)
Definition reportAll (tenantID serviceName url : string)
    (s : ServiceRegistry) (rs : list (bool * Time * Time)) : ServiceRegistry :=
  foldl (fun s r => UpdateHealthStatus s r.1.2 r.2 tenantID serviceName url r.1.1)
        s rs.

(** A run of failure reports, given the instants of each call. *)
Definition reportFailures (tenantID serviceName url : string)
    (s : ServiceRegistry) (ts : list (Time * Time)) : ServiceRegistry :=
  reportAll tenantID serviceName url s (map (fun t => (false, t.1, t.2)) ts).

(** ** Package service: load balancing *)

(** The pair [(string, *ServiceEndpoint)] every selector returns. *)
Definition Selection : Type := string * option ServiceEndpoint.

(** [rand.Intn(n)]: panics when [n <= 0]; the draw itself is an input. *)
Definition Intn (draw : Z → Z) (n : Z) : option Z :=
  if n <=? 0 then None else Some (draw n).

Definition roundRobinSelect (s : ServiceRegistry) (tenantID serviceName : string)
    (endpoints : list ServiceEndpoint) : option (ServiceRegistry * Selection) :=
  match endpoints with
  | [] => Some (s, ("", None))
  | _ :: _ =>
      let key := lbKey tenantID serviceName in
      let idx := default 0 (loadBalanceIdx s !! key) in
      let n := Z.of_nat (length endpoints) in
      endpoint ← index endpoints (Z.rem idx n);
      Some ({| healthStatus := healthStatus s;
               loadBalanceIdx :=
                 <[key := Z.rem (int_add idx 1) n]> (loadBalanceIdx s) |},
            (ep_URL endpoint, Some endpoint))
  end.

Definition randomSelect (draw : Z → Z) (endpoints : list ServiceEndpoint)
    : option Selection :=
  match endpoints with
  | [] => Some ("", None)
  | _ :: _ =>
      idx ← Intn draw (Z.of_nat (length endpoints));
      endpoint ← index endpoints idx;
      Some (ep_URL endpoint, Some endpoint)
  end.

(** [totalWeight += ep.Weight] over the slice. *)
Definition totalWeight (endpoints : list ServiceEndpoint) : Z :=
  foldl (fun acc ep => int_add acc (ep_Weight ep)) 0 endpoints.

(** The second loop of [weightedSelect], entered with the running sum
    [cumulative]; [None] when the loop runs off the end of the slice. *)
Fixpoint weightedWalk (r cumulative : Z) (endpoints : list ServiceEndpoint)
    : option ServiceEndpoint :=
  match endpoints with
  | [] => None
  | ep :: rest =>
      let cumulative := int_add cumulative (ep_Weight ep) in
      if r <? cumulative then Some ep else weightedWalk r cumulative rest
  end.

Definition weightedSelect (draw : Z → Z) (endpoints : list ServiceEndpoint)
    : option Selection :=
  match endpoints with
  | [] => Some ("", None)
  | first :: _ =>
      let total := totalWeight endpoints in
      if total =? 0 then randomSelect draw endpoints
      else
        r ← Intn draw total;
        match weightedWalk r 0 endpoints with
        | Some ep => Some (ep_URL ep, Some ep)
        | None => Some (ep_URL first, Some first)
        end
  end.

Definition selectEndpoint (s : ServiceRegistry) (draw : Z → Z)
    (config : ServiceConfig) : option (ServiceRegistry * Selection) :=
  let endpoints := GetActiveEndpoints config in
  match endpoints with
  | [] =>
      if bool_decide (ep_URL (sc_PrimaryEndpoint config) ≠ "") then
        Some (s, (ep_URL (sc_PrimaryEndpoint config),
                  Some (sc_PrimaryEndpoint config)))
      else Some (s, (sc_DefaultServiceURL config, None))
  | _ :: _ =>
      let strategy := sc_LoadBalanceStrategy config in
      if bool_decide (strategy = LoadBalanceRoundRobin) then
        roundRobinSelect s (sc_TenantID config) (sc_ServiceName config) endpoints
      else if bool_decide (strategy = LoadBalanceRandom) then
        sel ← randomSelect draw endpoints; Some (s, sel)
      else if bool_decide (strategy = LoadBalanceWeighted) then
        sel ← weightedSelect draw endpoints; Some (s, sel)
      else if bool_decide (strategy = LoadBalanceLeastConn) then
        roundRobinSelect s (sc_TenantID config) (sc_ServiceName config) endpoints
      else
        roundRobinSelect s (sc_TenantID config) (sc_ServiceName config) endpoints
  end.

(** [n] successive calls of a selector that threads the registry; the
    selections are listed in call order. *)
Fixpoint repeatSelect (step : ServiceRegistry → option (ServiceRegistry * Selection))
    (n : nat) (s : ServiceRegistry) : option (ServiceRegistry * list Selection) :=
  match n with
  | O => Some (s, [])
  | S n' =>
      r ← step s;
      rest ← repeatSelect step n' r.1;
      Some (rest.1, r.2 :: rest.2)
  end.

(** ** Package service: the health-aware fallback walk *)

(** The loop over [config.FallbackChain]: the endpoint it returns on, if
    any, and the attempted URLs accumulated so far. *)
Fixpoint walkFallbackChain (s : ServiceRegistry) (tenantID serviceName : string)
    (chain : list ServiceEndpoint) (attempted : list string)
    : option ServiceEndpoint * list string :=
  match chain with
  | [] => (None, attempted)
  | endpoint :: rest =>
      if ep_IsActive endpoint
         && isEndpointHealthy s tenantID serviceName (ep_URL endpoint)
      then (Some endpoint, attempted)
      else walkFallbackChain s tenantID serviceName rest
             (attempted ++ [ep_URL endpoint])
  end.

(** [ResolveFallbackChain] returns the trace and the error ([None] is [nil]). *)
Definition ResolveFallbackChain (s : ServiceRegistry) (now : Time)
    (config : ServiceConfig) : FallbackChainResult * option string :=
  let tenantID := sc_TenantID config in
  let serviceName := sc_ServiceName config in
  let primary := sc_PrimaryEndpoint config in
  let result urlv used isDefault attempted success err :=
    {| res_TenantID := tenantID;
       res_ServiceName := serviceName;
       res_ResolvedURL := urlv;
       res_UsedEndpoint := used;
       res_IsDefault := isDefault;
       res_AttemptedURLs := attempted;
       res_AttemptedAt := now;
       res_Success := success;
       res_Error := err |} in
  if ep_IsActive primary && isEndpointHealthy s tenantID serviceName (ep_URL primary)
  then (result (ep_URL primary) (Some primary) false [] true "", None)
  else
    match walkFallbackChain s tenantID serviceName (sc_FallbackChain config)
            [ep_URL primary] with
    | (Some endpoint, attempted) =>
        (result (ep_URL endpoint) (Some endpoint) false attempted true "", None)
    | (None, attempted) =>
        if bool_decide (sc_DefaultServiceURL config ≠ "") then
          (result (sc_DefaultServiceURL config) None true attempted true "", None)
        else
          (result "" None false attempted false
                  "all endpoints in fallback chain are unhealthy",
           Some "no healthy endpoints available")
    end.

(** ** Package service: cache eviction and listing *)

(** [InvalidateCache]: [delete(s.healthStatus, key)]. *)
Definition InvalidateCache (s : ServiceRegistry)
    (tenantID serviceName url : string) : ServiceRegistry :=
  {| healthStatus := delete (healthKey tenantID serviceName url) (healthStatus s);
     loadBalanceIdx := loadBalanceIdx s |}.

(** [InvalidateAllCache]: the health table is replaced by an empty map. *)
Definition InvalidateAllCache (s : ServiceRegistry) : ServiceRegistry :=
  {| healthStatus := ∅; loadBalanceIdx := loadBalanceIdx s |}.

(** [GetAllHealthStatus]: a copy of every record. Go ranges over the map in
    an unspecified order; the list is meaningful up to permutation. *)
Definition GetAllHealthStatus (s : ServiceRegistry) : list ServiceStatus :=
  (map_to_list (healthStatus s)).*2.

(** ** Package service: resolution through the configuration store *)

(** [GetServiceConfig] and [GetDefaultConfig] of the registry, on the pair
    the repository returned: a missing document becomes [ErrServiceNotFound]. *)
Definition orNotFound {A} (found : option A * option Error) : option A * option Error :=
  match found with
  | (_, Some err) => (None, Some err)
  | (None, None) => (None, Some ErrServiceNotFound)
  | (Some config, None) => (Some config, None)
  end.

Definition GetServiceConfig (found : option ServiceConfig * option Error)
    : option ServiceConfig * option Error := orNotFound found.

Definition GetDefaultConfig (found : option DefaultServiceConfig * option Error)
    : option DefaultServiceConfig * option Error := orNotFound found.

(** [GetServiceURL]. The two repository reads are inputs: [found] is what
    [FindByTenantAndService] returned and [defaultFound] what
    [GetDefaultConfig] returned (read only when the tenant path gives
    nothing). Logging is not modelled. *)
Definition GetServiceURL (s : ServiceRegistry) (draw : Z → Z) (now : Time)
    (found : option ServiceConfig * option Error)
    (defaultFound : option DefaultServiceConfig * option Error)
    (tenantID serviceName : string)
    : option (ServiceRegistry * (FallbackChainResult * option Error)) :=
  let result urlv used isDefault success err :=
    {| res_TenantID := tenantID;
       res_ServiceName := serviceName;
       res_ResolvedURL := urlv;
       res_UsedEndpoint := used;
       res_IsDefault := isDefault;
       res_AttemptedURLs := [];
       res_AttemptedAt := now;
       res_Success := success;
       res_Error := err |} in
  let useDefault (s1 : ServiceRegistry) :=
    match defaultFound with
    | (_, Some err) =>
        Some (s1, (result "" None false false
                     ("failed to resolve service URL: " +:+ errorMessage err),
                   Some ErrServiceNotFound))
    | (None, None) =>
        Some (s1, (result "" None false false "no configuration found for service",
                   Some ErrServiceNotFound))
    | (Some defaultConfig, None) =>
        Some (s1, (result (dc_DefaultURL defaultConfig) None true true "", None))
    end in
  match found.1 with
  | Some config =>
      if sc_IsActive config then
        r ← selectEndpoint s draw config;
        if bool_decide (r.2.1 ≠ "") then
          Some (r.1, (result r.2.1 r.2.2 false true "", None))
        else useDefault r.1
      else useDefault s
  | None => useDefault s
  end.

End service.

Import service.

(** ** Package grpc: the wire facade of the registry *)

Module grpc.

(** [int32(x)] on an [int]: the low 32 bits, signed. *)
Definition to_int32 (z : Z) : Z := (z + 2 ^ 31) mod 2 ^ 32 - 2 ^ 31.

(** The messages of the protocol, with the fields the helpers read and
    write; [int32] fields are [Z], message-typed fields are pointers. *)
Record ServiceEndpoint := {
  Url : string;
  Priority : Z;
  Weight : Z;
  Timeout : Z;
  Headers : gmap string string;
  IsActive : bool
}.

Record HealthCheckConfig := {
  Enabled : bool;
  Path : string;
  Method : string;
  Interval : Z;
  HcTimeout : Z;
  FailThreshold : Z
}.

Record ServiceConfig := {
  TenantId : string;
  ServiceName : string;
  PrimaryEndpoint : option ServiceEndpoint;
  FallbackChain : list (option ServiceEndpoint);
  DefaultServiceUrl : string;
  HealthCheck : option HealthCheckConfig;
  LoadBalanceStrategy : string;
  ConfigIsActive : bool;
  Metadata : gmap string string
}.

Record ServiceHealth := {
  EndpointUrl : string;
  IsHealthy : bool;
  LastChecked : string;
  LastSuccessful : string;
  LastFailure : string;
  ConsecutiveFails : Z;
  LastError : string
}.

Record GetServiceURLResponse := {
  RespUrl : string;
  RespIsDefault : bool;
  RespSuccess : bool;
  RespError : string;
  RespAttemptedUrls : list string
}.

Definition toProtoServiceEndpoint (endpoint : domain.ServiceEndpoint)
    : ServiceEndpoint :=
  {| Url := ep_URL endpoint;
     Priority := to_int32 (ep_Priority endpoint);
     Weight := to_int32 (ep_Weight endpoint);
     Timeout := to_int32 (ep_Timeout endpoint);
     Headers := ep_Headers endpoint;
     IsActive := ep_IsActive endpoint |}.

Definition toProtoHealthCheck (config : domain.HealthCheckConfig)
    : HealthCheckConfig :=
  {| Enabled := hc_Enabled config;
     Path := hc_Path config;
     Method := hc_Method config;
     Interval := to_int32 (hc_Interval config);
     HcTimeout := to_int32 (hc_Timeout config);
     FailThreshold := to_int32 (hc_FailThreshold config) |}.

(** [format] is [t.Format(time.RFC3339)]. *)
Definition toProtoServiceHealth (format : Time → string) (status : ServiceStatus)
    : ServiceHealth :=
  {| EndpointUrl := st_EndpointURL status;
     IsHealthy := st_IsHealthy status;
     LastChecked := format (st_LastChecked status);
     LastSuccessful := format (st_LastSuccessful status);
     LastFailure := format (st_LastFailure status);
     ConsecutiveFails := to_int32 (st_ConsecutiveFails status);
     LastError := st_LastError status |}.

(** The [fromProto] helpers read the fields of the pointer they are given:
    on a nil pointer they panic. *)
Definition fromProtoServiceEndpoint (proto : option ServiceEndpoint)
    : option domain.ServiceEndpoint :=
  p ← proto;
  Some {| ep_URL := Url p;
          ep_Priority := Priority p;
          ep_Weight := Weight p;
          ep_Timeout := Timeout p;
          ep_Headers := Headers p;
          ep_IsActive := IsActive p |}.

Definition fromProtoHealthCheck (proto : option HealthCheckConfig)
    : option domain.HealthCheckConfig :=
  p ← proto;
  Some {| hc_Enabled := Enabled p;
          hc_Path := Path p;
          hc_Method := Method p;
          hc_Interval := Interval p;
          hc_Timeout := HcTimeout p;
          hc_FailThreshold := FailThreshold p |}.

Definition fromProtoServiceConfig (proto : option ServiceConfig)
    : option domain.ServiceConfig :=
  p ← proto;
  fallbackChain ← mapM fromProtoServiceEndpoint (FallbackChain p);
  primary ← fromProtoServiceEndpoint (PrimaryEndpoint p);
  healthCheck ← fromProtoHealthCheck (HealthCheck p);
  Some {| sc_TenantID := TenantId p;
          sc_ServiceName := ServiceName p;
          sc_PrimaryEndpoint := primary;
          sc_FallbackChain := fallbackChain;
          sc_DefaultServiceURL := DefaultServiceUrl p;
          sc_HealthCheck := healthCheck;
          sc_LoadBalanceStrategy := LoadBalanceStrategy p;
          sc_IsActive := ConfigIsActive p;
          sc_Metadata := Metadata p |}.

(** The handler [GetServiceURL], on what the registry returned: the gRPC
    error is always [nil], so only the response is modelled. *)
Definition GetServiceURL (registry : FallbackChainResult * option Error)
    : GetServiceURLResponse :=
  match registry with
  | (_, Some err) =>
      {| RespUrl := ""; RespIsDefault := false; RespSuccess := false;
         RespError := errorMessage err; RespAttemptedUrls := [] |}
  | (result, None) =>
      {| RespUrl := res_ResolvedURL result;
         RespIsDefault := res_IsDefault result;
         RespSuccess := res_Success result;
         RespError := res_Error result;
         RespAttemptedUrls := res_AttemptedURLs result |}
  end.

(** The handler [GetServiceHealth]. [found] is what the repository returned
    for the configuration, [clock i] the instant read by the [i]-th call of
    [GetHealthStatus] (the primary is call 0). *)
Definition GetServiceHealth (s : ServiceRegistry) (format : Time → string)
    (clock : nat → Time) (found : option domain.ServiceConfig * option Error)
    (tenantId serviceName : string) : option (list ServiceHealth) * option Error :=
  match service.GetServiceConfig found with
  | (Some config, None) =>
      (Some (toProtoServiceHealth format
               (GetHealthStatus s (clock 0%nat) tenantId serviceName
                  (ep_URL (sc_PrimaryEndpoint config)))
             :: imap (fun i endpoint =>
                        toProtoServiceHealth format
                          (GetHealthStatus s (clock (S i)) tenantId serviceName
                             (ep_URL endpoint)))
                     (sc_FallbackChain config)),
       None)
  | (_, err) => (None, err)
  end.

End grpc.

(** * Specification vocabulary *)

(** Ascending priority, as a relation on endpoints. *)
Definition prio_le (x y : ServiceEndpoint) : Prop :=
  ep_Priority x ≤ ep_Priority y.

(** Loop invariant of the outer loop of the sort: every position below [i]
    holds an endpoint that no later position undercuts. *)
Definition prefix_settled (i : nat) (l : list ServiceEndpoint) : Prop :=
  ∀ a b x y, (a < i)%nat → (a < b)%nat →
    l !! a = Some x → l !! b = Some y → ep_Priority x ≤ ep_Priority y.

(** Loop invariant of the inner loop: position [i] is not undercut by the
    positions strictly between [i] and [j]. *)
Definition slot_minimal (i j : nat) (l : list ServiceEndpoint) : Prop :=
  ∀ b x y, (i < b < j)%nat →
    l !! i = Some x → l !! b = Some y → ep_Priority x ≤ ep_Priority y.

(** The stable ascending sort the specification describes for
    [endpointsByPriority()]: insertion from the right, a new element going
    in front of the first element that is not smaller, so that equal
    priorities keep their input order. *)
Fixpoint insertByPriority (x : ServiceEndpoint) (l : list ServiceEndpoint)
    : list ServiceEndpoint :=
  match l with
  | [] => [x]
  | y :: rest =>
      if ep_Priority x <=? ep_Priority y then x :: y :: rest
      else y :: insertByPriority x rest
  end.

Definition stableSortByPriority (l : list ServiceEndpoint) : list ServiceEndpoint :=
  foldr insertByPriority [] l.

(** The pair a selector returns for the endpoint it picked. *)
Definition selectionOf (e : ServiceEndpoint) : Selection := (ep_URL e, Some e).

(** [s.loadBalanceIdx[key]] as Go reads it: 0 for a missing key. *)
Definition lbCursor (s : ServiceRegistry) (tenantID serviceName : string) : Z :=
  default 0 (loadBalanceIdx s !! lbKey tenantID serviceName).

(** Every stored cursor is a valid slice index, hence below [max_int]. *)
Definition cursors_in_range (s : ServiceRegistry) : Prop :=
  ∀ k v, loadBalanceIdx s !! k = Some v → 0 ≤ v < max_int.

(** The sum of the weights of a list as a number, without the machine
    arithmetic of the code: what "total weight" and "running cumulative
    weight" mean. *)
Definition weightSum (endpoints : list ServiceEndpoint) : Z :=
  foldr (λ e acc, ep_Weight e + acc) 0 endpoints.

(** No running sum of the weights leaves the range of [int]. *)
Definition sums_fit_int (endpoints : list ServiceEndpoint) : Prop :=
  ∀ k, - 2 ^ 63 ≤ weightSum (take k endpoints) < 2 ^ 63.

(** The contract of [rand.Intn] on a positive bound. *)
Definition draw_in_range (draw : Z → Z) : Prop :=
  ∀ n, 0 < n → 0 ≤ draw n < n.

(** A configuration with its [LoadBalanceStrategy] replaced. *)
Definition withStrategy (config : ServiceConfig) (strategy : string) : ServiceConfig :=
  {| sc_TenantID := sc_TenantID config;
     sc_ServiceName := sc_ServiceName config;
     sc_PrimaryEndpoint := sc_PrimaryEndpoint config;
     sc_FallbackChain := sc_FallbackChain config;
     sc_DefaultServiceURL := sc_DefaultServiceURL config;
     sc_HealthCheck := sc_HealthCheck config;
     sc_LoadBalanceStrategy := strategy;
     sc_IsActive := sc_IsActive config;
     sc_Metadata := sc_Metadata config |}.

(** The test [ResolveFallbackChain] applies to each endpoint it visits. *)
Definition usableEndpoint (s : ServiceRegistry) (tenantID serviceName : string)
    (e : ServiceEndpoint) : bool :=
  ep_IsActive e && isEndpointHealthy s tenantID serviceName (ep_URL e).

(** The registry with its health table replaced. *)
Definition withHealth (hs : gmap string ServiceStatus) (s : ServiceRegistry)
    : ServiceRegistry :=
  {| healthStatus := hs; loadBalanceIdx := loadBalanceIdx s |}.

(** The values an [int32] holds. *)
Definition in_int32 (z : Z) : Prop := - 2 ^ 31 ≤ z < 2 ^ 31.

(** ** Sample data *)

Definition sampleEndpoint (u : string) (priority weight : Z) (active : bool)
    : ServiceEndpoint :=
  {| ep_URL := u; ep_Priority := priority; ep_Weight := weight;
     ep_Timeout := 5; ep_Headers := ∅; ep_IsActive := active |}.

Definition sampleHealthCheck (threshold : Z) : HealthCheckConfig :=
  {| hc_Enabled := true; hc_Path := "/health"; hc_Method := "GET";
     hc_Interval := 30; hc_Timeout := 5; hc_FailThreshold := threshold |}.

Definition sampleConfig (primary : ServiceEndpoint) (chain : list ServiceEndpoint)
    (defaultURL strategy : string) : ServiceConfig :=
  {| sc_TenantID := "acme"; sc_ServiceName := "user";
     sc_PrimaryEndpoint := primary; sc_FallbackChain := chain;
     sc_DefaultServiceURL := defaultURL;
     sc_HealthCheck := sampleHealthCheck 3;
     sc_LoadBalanceStrategy := strategy;
     sc_IsActive := true; sc_Metadata := ∅ |}.

(** Three active endpoints, the first two of equal priority. *)
Definition epP : ServiceEndpoint := sampleEndpoint "http://p:8080" 2 1 true.
Definition epF1 : ServiceEndpoint := sampleEndpoint "http://f1:8080" 2 1 true.
Definition epF2 : ServiceEndpoint := sampleEndpoint "http://f2:8080" 1 1 true.

Definition tiedConfig : ServiceConfig :=
  sampleConfig epP [epF1; epF2] "http://default:8080" "round-robin".

(** The scenario of an inactive primary in front of one active fallback. *)
Definition epA : ServiceEndpoint := sampleEndpoint "http://a:8080" 0 1 false.
Definition epB : ServiceEndpoint := sampleEndpoint "http://b:8080" 1 1 true.

Definition scenarioConfig : ServiceConfig :=
  sampleConfig epA [epB] "http://default:8080" "round-robin".

(** An inactive primary alone, without a default URL. *)
Definition bareConfig : ServiceConfig :=
  sampleConfig epA [] "" "round-robin".

(** Three failure reports, with the instants each call reads. *)
Definition threeFailures : list (Time * Time) := [(11, 11); (12, 12); (13, 13)].

(** A random source that always draws the largest admissible value. *)
Definition drawLast (n : Z) : Z := n - 1.

(** Three active endpoints of pairwise different priority. *)
Definition epF3 : ServiceEndpoint := sampleEndpoint "http://f3:8080" 0 1 true.

Definition distinctConfig : ServiceConfig :=
  sampleConfig epP [epF2; epF3] "http://default:8080" "round-robin".

(** An endpoint with the largest weight an [int] holds. *)
Definition epHuge : ServiceEndpoint := sampleEndpoint "http://h:8080" 0 max_int true.

(** An endpoint whose weight is negative, and a configuration that
    balances over it by weight. *)
Definition epNeg : ServiceEndpoint := sampleEndpoint "http://n:8080" 0 (-1) true.

Definition negativeWeightConfig : ServiceConfig :=
  sampleConfig epNeg [] "http://default:8080" "weighted".

(** Every endpoint switched off. *)
Definition allInactiveConfig : ServiceConfig :=
  sampleConfig epA [sampleEndpoint "http://c:8080" 1 1 false]
    "http://default:8080" "round-robin".

(** Repository reads that found the tenant configuration, or nothing. *)
Definition foundTied : option ServiceConfig * option Error :=
  (Some tiedConfig, None).

Definition foundNothing {A} : option A * option Error := (None, None).

(** * Properties *)

(** ** Machine integers *)

Lemma wrap_int_small (z : Z) : - 2 ^ 63 ≤ z < 2 ^ 63 → wrap_int z = z.
Proof.
  intros Hz. unfold wrap_int.
  rewrite Z.mod_small by lia. lia.
Qed.

Lemma int_add_small (a b : Z) : - 2 ^ 63 ≤ a + b < 2 ^ 63 → int_add a b = a + b.
Proof. apply wrap_int_small. Qed.

Lemma index_Some {A} (l : list A) (i : Z) (x : A) :
  index l i = Some x ↔ 0 ≤ i ∧ l !! Z.to_nat i = Some x.
Proof.
  unfold index. destruct (Z.ltb_spec i 0); split; try done.
  - intros [? _]; lia.
  - by intros [_ ?].
Qed.

(** ** The health state tracker *)

Section health.
Context (tenantID serviceName url : string).

Local Abbreviation key := (healthKey tenantID serviceName url).

Local Abbreviation fresh := (freshStatus tenantID serviceName url).

Lemma UpdateHealthStatus_lookup s now1 now2 healthy :
  healthStatus (UpdateHealthStatus s now1 now2 tenantID serviceName url healthy)
    !! key
  = Some (match healthStatus s !! key with
          | None => fresh now1 healthy
          | Some status => updateExisting status now1 now2 healthy
          end).
Proof.
  unfold UpdateHealthStatus.
  destruct (healthStatus s !! key); simpl; by rewrite lookup_insert_eq.
Qed.

Lemma UpdateHealthStatus_is_Some s now1 now2 healthy :
  is_Some (healthStatus
             (UpdateHealthStatus s now1 now2 tenantID serviceName url healthy)
           !! key).
Proof. rewrite UpdateHealthStatus_lookup. eauto. Qed.

Lemma reportFailures_cons s t ts :
  reportFailures tenantID serviceName url s (t :: ts)
  = reportFailures tenantID serviceName url
      (UpdateHealthStatus s t.1 t.2 tenantID serviceName url false) ts.
Proof. reflexivity. Qed.

Lemma reportFailures_nil s :
  reportFailures tenantID serviceName url s [] = s.
Proof. reflexivity. Qed.

Lemma isEndpointHealthy_lookup s status :
  healthStatus s !! key = Some status →
  isEndpointHealthy s tenantID serviceName url = st_IsHealthy status.
Proof. unfold isEndpointHealthy. by intros ->. Qed.

(** Failure reports never turn an unhealthy record healthy. *)
Lemma reportFailures_stays_unhealthy ts : ∀ s status,
  healthStatus s !! key = Some status →
  st_IsHealthy status = false →
  isEndpointHealthy (reportFailures tenantID serviceName url s ts)
    tenantID serviceName url = false.
Proof.
  induction ts as [|t ts IH]; intros s status Hs Hunh.
  - by rewrite reportFailures_nil, (isEndpointHealthy_lookup _ _ Hs).
  - rewrite reportFailures_cons.
    eapply IH; [apply UpdateHealthStatus_lookup|].
    rewrite Hs. simpl. rewrite Hunh. by case_match.
Qed.

(** A healthy record that has counted [c < 3] failures stays healthy
    exactly while the count remains below three. *)
Lemma reportFailures_counts ts : ∀ s status,
  healthStatus s !! key = Some status →
  st_IsHealthy status = true →
  0 ≤ st_ConsecutiveFails status < 3 →
  isEndpointHealthy (reportFailures tenantID serviceName url s ts)
    tenantID serviceName url
  = bool_decide (st_ConsecutiveFails status + Z.of_nat (length ts) < 3).
Proof.
  induction ts as [|t ts IH]; intros s status Hs Hh Hc.
  - rewrite reportFailures_nil, (isEndpointHealthy_lookup _ _ Hs), Hh. simpl.
    symmetry. apply bool_decide_eq_true. lia.
  - rewrite reportFailures_cons.
    pose proof (UpdateHealthStatus_lookup s t.1 t.2 false) as Hl.
    rewrite Hs in Hl. simpl in Hl.
    rewrite int_add_small in Hl by lia.
    destruct (Z.leb_spec 3 (st_ConsecutiveFails status + 1)) as [Hge|Hlt].
    + erewrite reportFailures_stays_unhealthy; [|exact Hl|done].
      symmetry. apply bool_decide_eq_false. simpl length. lia.
    + erewrite IH; [|exact Hl|done|simpl; lia]. simpl.
      apply bool_decide_ext. lia.
Qed.

(** C8: a key without a record is reported healthy by [isEndpointHealthy],
    and [GetHealthStatus] synthesises a record for it (the caller's
    identifiers, [IsHealthy = true], [ConsecutiveFails = 0], every other
    field at its zero value but [LastChecked]); both are total functions
    of the registry, so neither can fail. *)
Theorem C8_absent_record_is_healthy s now :
  healthStatus s !! key = None →
  isEndpointHealthy s tenantID serviceName url = true
  ∧ GetHealthStatus s now tenantID serviceName url = fresh now true
  ∧ st_IsHealthy (GetHealthStatus s now tenantID serviceName url) = true
  ∧ st_ConsecutiveFails (GetHealthStatus s now tenantID serviceName url) = 0.
Proof.
  intros Hnone. unfold isEndpointHealthy, GetHealthStatus.
  by rewrite Hnone.
Qed.

(** C9: whatever the registry holds and whatever run of reports came
    before, one success report leaves the record of the key with
    [ConsecutiveFails = 0] and [IsHealthy = true]. *)
Theorem C9_success_resets s prior now1 now2 :
  let s' := UpdateHealthStatus (reportAll tenantID serviceName url s prior)
              now1 now2 tenantID serviceName url true in
  ∃ status,
    healthStatus s' !! key = Some status
    ∧ st_ConsecutiveFails status = 0
    ∧ st_IsHealthy status = true
    ∧ isEndpointHealthy s' tenantID serviceName url = true.
Proof.
  intros s'. subst s'.
  set (s0 := reportAll tenantID serviceName url s prior).
  pose proof (UpdateHealthStatus_lookup s0 now1 now2 true) as Hl.
  eexists. split; [exact Hl|].
  rewrite (isEndpointHealthy_lookup _ _ Hl).
  by destruct (healthStatus s0 !! key).
Qed.

(** C10: the first report on a key without a record stores a record whose
    [IsHealthy] is the reported outcome, whose [ConsecutiveFails] is 0 and
    whose only stamped instant is [LastChecked]; [LastSuccessful],
    [LastFailure] and [LastError] keep their zero values and the threshold
    is not consulted. One failure report on such a key therefore gives
    [IsHealthy = false] with [ConsecutiveFails = 0]. *)
Theorem C10_first_report_creates_record s now1 now2 healthy :
  healthStatus s !! key = None →
  healthStatus (UpdateHealthStatus s now1 now2 tenantID serviceName url healthy)
    !! key = Some (fresh now1 healthy)
  ∧ st_IsHealthy (fresh now1 healthy) = healthy
  ∧ st_ConsecutiveFails (fresh now1 healthy) = 0
  ∧ st_LastChecked (fresh now1 healthy) = now1
  ∧ st_LastSuccessful (fresh now1 healthy) = zeroTime
  ∧ st_LastFailure (fresh now1 healthy) = zeroTime
  ∧ isEndpointHealthy
      (UpdateHealthStatus s now1 now2 tenantID serviceName url false)
      tenantID serviceName url = false.
Proof.
  intros Hnone. repeat split.
  - by rewrite UpdateHealthStatus_lookup, Hnone.
  - erewrite isEndpointHealthy_lookup; [|apply UpdateHealthStatus_lookup].
    by rewrite Hnone.
Qed.

(** C1 (amended): for a key whose record exists, is healthy and has
    counted no failure (as after a success report), a run of failure
    reports leaves the endpoint healthy exactly while the run is shorter
    than three: two failures keep [IsHealthy] true, the third flips it to
    false. The bound is the literal 3 of [UpdateHealthStatus], equal to
    [DefaultFailThreshold]; no [HealthCheckConfig] takes part. *)
Theorem C1_three_failures_flip s status ts :
  healthStatus s !! key = Some status →
  st_IsHealthy status = true →
  st_ConsecutiveFails status = 0 →
  isEndpointHealthy (reportFailures tenantID serviceName url s ts)
    tenantID serviceName url
  = bool_decide (Z.of_nat (length ts) < DefaultFailThreshold).
Proof.
  intros Hs Hh Hc.
  rewrite (reportFailures_counts ts s status Hs Hh) by lia.
  apply bool_decide_ext. unfold DefaultFailThreshold. lia.
Qed.

End health.

(** ** The priority view of a configuration *)

Section priority_sort.
Implicit Types (l : list ServiceEndpoint) (i j k : nat).

Local Abbreviation prio := ep_Priority.

Lemma foldl_seq_invariant {St} (f : St → nat → St) (P : nat → St → Prop) len :
  ∀ start s,
    P start s →
    (∀ k s', (start ≤ k < start + len)%nat → P k s' → P (S k) (f s' k)) →
    P (start + len)%nat (foldl f s (seq start len)).
Proof.
  induction len as [|len IH]; intros start s H0 Hstep; simpl.
  - by rewrite Nat.add_0_r.
  - replace (start + S len)%nat with (S start + len)%nat by lia.
    apply IH.
    + apply Hstep; [lia|done].
    + intros k s' Hk. apply Hstep. lia.
Qed.

Lemma swap_lookup {A} (l : list A) i j x y k :
  l !! i = Some x → l !! j = Some y →
  swap l i j !! k
  = if decide (k = j) then Some x else if decide (k = i) then Some y else l !! k.
Proof.
  intros Hi Hj. unfold swap. rewrite Hi, Hj.
  apply lookup_lt_Some in Hi as Hi'. apply lookup_lt_Some in Hj as Hj'.
  rewrite !list_lookup_insert, length_insert.
  repeat case_decide; destruct_and?; simplify_eq; try done;
    exfalso; intuition lia.
Qed.

Lemma swap_length {A} (l : list A) i j : length (swap l i j) = length l.
Proof.
  unfold swap. repeat case_match; by rewrite ?length_insert.
Qed.

Lemma swap_Permutation {A} (l : list A) i j : swap l i j ≡ₚ l.
Proof.
  destruct (l !! i) as [x|] eqn:Hi; [|by unfold swap; rewrite Hi].
  destruct (l !! j) as [y|] eqn:Hj; [|by unfold swap; rewrite Hi, Hj].
  apply Permutation_inj. split; [apply swap_length|].
  exists (λ k, if decide (k = j) then i else if decide (k = i) then j else k).
  split.
  - intros a b. repeat case_decide; naive_solver lia.
  - intros k. rewrite (swap_lookup l i j x y k Hi Hj).
    repeat case_decide; by subst.
Qed.

Lemma sortStep_length i l j : length (sortStep i l j) = length l.
Proof.
  unfold sortStep. repeat case_match; by rewrite ?swap_length.
Qed.

Lemma sortStep_Permutation i l j : sortStep i l j ≡ₚ l.
Proof.
  unfold sortStep. repeat case_match; by rewrite ?swap_Permutation.
Qed.

(** One iteration of the inner loop extends [slot_minimal] by one
    position and keeps the settled prefix. *)
Lemma sortStep_invariant i j l :
  (i < j < length l)%nat →
  prefix_settled i l → slot_minimal i j l →
  prefix_settled i (sortStep i l j) ∧ slot_minimal i (S j) (sortStep i l j).
Proof.
  intros [Hij Hj] Hpre Hmin.
  destruct (lookup_lt_is_Some_2 l i) as [ei Hei]; [lia|].
  destruct (lookup_lt_is_Some_2 l j) as [ej Hej]; [done|].
  unfold sortStep. rewrite Hei, Hej.
  destruct (Z.ltb_spec (prio ej) (prio ei)) as [Hlt|Hge].
  - split.
    + intros a b x y Ha Hab.
      rewrite !(swap_lookup l i j ei ej _ Hei Hej).
      repeat case_decide; subst; try lia; intros Hx Hy; simplify_eq.
      * eapply (Hpre a i); eauto with lia.
      * eapply (Hpre a j); eauto with lia.
      * eapply (Hpre a b); eauto with lia.
    + intros b x y Hb.
      rewrite !(swap_lookup l i j ei ej _ Hei Hej).
      repeat case_decide; subst; try lia; intros Hx Hy; simplify_eq.
      * unfold prio_le in *. lia.
      * assert (prio ei ≤ prio y) by (eapply (Hmin b); eauto with lia). lia.
  - split; [done|].
    intros b x y Hb Hx Hy. simplify_eq.
    destruct (decide (b = j)) as [->|]; [by simplify_eq|].
    eapply (Hmin b); eauto with lia.
Qed.

Lemma sortInner_spec i l :
  (i < length l)%nat →
  prefix_settled i l →
  length (sortInner l i) = length l
  ∧ sortInner l i ≡ₚ l
  ∧ prefix_settled (S i) (sortInner l i).
Proof.
  intros Hi Hpre. unfold sortInner.
  set (n := length l).
  pose proof (foldl_seq_invariant (sortStep i)
    (λ j l', length l' = n ∧ l' ≡ₚ l
             ∧ prefix_settled i l' ∧ slot_minimal i j l')
    (n - S i) (S i) l) as Hloop.
  destruct Hloop as (Hlen & Hperm & Hpre' & Hmin').
  - repeat split; [done|done|]. intros b x y ?. lia.
  - intros j l' Hj (Hlen & Hperm & Hp & Hm).
    destruct (sortStep_invariant i j l') as [Hp' Hm']; [lia|done|done|].
    repeat split; [by rewrite sortStep_length| |done|done].
    by rewrite sortStep_Permutation.
  - repeat split; [done|done|].
    intros a b x y Ha Hab Hx Hy.
    destruct (decide (a = i)) as [->|].
    + apply lookup_lt_Some in Hy as Hb.
      eapply (Hmin' b); eauto with lia.
    + eapply (Hpre' a b); eauto with lia.
Qed.

Lemma sortByPriority_spec l :
  length (sortByPriority l) = length l
  ∧ sortByPriority l ≡ₚ l
  ∧ prefix_settled (length l) (sortByPriority l).
Proof.
  unfold sortByPriority.
  pose proof (foldl_seq_invariant sortInner
    (λ i l', length l' = length l ∧ l' ≡ₚ l ∧ prefix_settled i l')
    (length l) 0%nat l) as Hloop.
  apply Hloop.
  - repeat split; [done|]. intros a b x y ?. lia.
  - intros i l' Hi (Hlen & Hperm & Hp).
    destruct (sortInner_spec i l') as (Hlen' & Hperm' & Hp'); [lia|done|].
    repeat split; [congruence| |done]. by rewrite Hperm'.
Qed.

Lemma prefix_settled_sorted l :
  prefix_settled (length l) l → StronglySorted prio_le l.
Proof.
  induction l as [|x l IH]; intros Hs; constructor.
  - apply IH. intros a b u v Ha Hab Hu Hv.
    apply (Hs (S a) (S b)); simpl; auto with lia.
  - apply Forall_lookup. intros b y Hy.
    apply (Hs 0%nat (S b)); simpl; auto with lia.
Qed.

End priority_sort.

(** C3 (amended): for every configuration, [GetEndpointByPriority] returns
    a rearrangement of the active endpoints (the primary when active and the
    active fallback entries, each as often as it occurs) in ascending order
    of priority. Nothing is promised on the relative order of endpoints of
    equal priority. *)
Theorem C3_sorted_permutation_of_active (sc : ServiceConfig) :
  GetEndpointByPriority sc ≡ₚ GetActiveEndpoints sc
  ∧ StronglySorted prio_le (GetEndpointByPriority sc)
  ∧ (∀ e, e ∈ GetEndpointByPriority sc ↔
          (e = sc_PrimaryEndpoint sc ∨ e ∈ sc_FallbackChain sc)
          ∧ ep_IsActive e = true).
Proof.
  unfold GetEndpointByPriority.
  destruct (sortByPriority_spec (GetActiveEndpoints sc)) as (Hlen & Hperm & Hs).
  split; [done|]. split.
  - apply prefix_settled_sorted. by rewrite Hlen.
  - intros e. rewrite Hperm. unfold GetActiveEndpoints.
    rewrite elem_of_app, list_elem_of_filter.
    destruct (ep_IsActive (sc_PrimaryEndpoint sc)) eqn:Hact.
    + rewrite list_elem_of_singleton. intuition (subst; auto).
    + rewrite elem_of_nil. intuition (subst; congruence).
Qed.

(** C3, as stated, fails on [tiedConfig]: the primary [epP] and the first
    fallback [epF1] have the same priority and [epP] comes first among the
    active endpoints, yet the exchange sort returns [epF1] before [epP];
    the stable sort of the same list keeps [epP] first. *)
Lemma C3_equal_priorities_reordered :
  GetActiveEndpoints tiedConfig = [epP; epF1; epF2]
  ∧ ep_Priority epP = ep_Priority epF1
  ∧ GetEndpointByPriority tiedConfig = [epF2; epF1; epP]
  ∧ stableSortByPriority (GetActiveEndpoints tiedConfig) = [epF2; epP; epF1]
  ∧ GetEndpointByPriority tiedConfig
    ≠ stableSortByPriority (GetActiveEndpoints tiedConfig).
Proof.
  repeat split; try (vm_compute; reflexivity).
  vm_compute. intros Heq. discriminate Heq.
Qed.

(** ** Round-robin selection *)

Section round_robin.
Context (tenantID serviceName : string) (endpoints : list ServiceEndpoint).

Local Abbreviation cursor s := (lbCursor s tenantID serviceName).
Local Abbreviation count := (Z.of_nat (length endpoints)).
Local Abbreviation rr s := (roundRobinSelect s tenantID serviceName endpoints).
Local Abbreviation calls := (repeatSelect (λ s, rr s)).

Lemma cursor_in_range s : cursors_in_range s → 0 ≤ cursor s < max_int.
Proof.
  intros Hs. unfold lbCursor.
  destruct (loadBalanceIdx s !! lbKey tenantID serviceName) as [v|] eqn:Hv.
  - by apply (Hs _ _ Hv).
  - simpl. unfold max_int. lia.
Qed.

Lemma index_in_range (i : Z) :
  0 ≤ i < count → is_Some (index endpoints i).
Proof.
  intros Hi. unfold index.
  destruct (Z.ltb_spec i 0); [lia|].
  apply lookup_lt_is_Some_2. lia.
Qed.

Lemma roundRobinSelect_nonempty s :
  endpoints ≠ [] →
  rr s = (endpoint ← index endpoints (Z.rem (cursor s) count);
          Some ({| healthStatus := healthStatus s;
                   loadBalanceIdx :=
                     <[lbKey tenantID serviceName :=
                         Z.rem (int_add (cursor s) 1) count]>
                       (loadBalanceIdx s) |},
                selectionOf endpoint)).
Proof. by destruct endpoints. Qed.

(** One call: the endpoint at [cursor mod count] is returned and the
    stored cursor becomes [(cursor + 1) mod count]. *)
Lemma roundRobinSelect_step s :
  endpoints ≠ [] → count ≤ max_int → 0 ≤ cursor s < max_int →
  ∃ e,
    index endpoints (cursor s `mod` count) = Some e
    ∧ rr s = Some ({| healthStatus := healthStatus s;
                      loadBalanceIdx :=
                        <[lbKey tenantID serviceName :=
                            (cursor s + 1) `mod` count]> (loadBalanceIdx s) |},
                   selectionOf e).
Proof.
  intros Hne Hlen Hc.
  assert (0 < count) as Hpos by (destruct endpoints; simpl; [done|lia]).
  destruct (index_in_range (cursor s `mod` count)) as [e He].
  { apply Z.mod_pos_bound. lia. }
  exists e. split; [done|].
  rewrite roundRobinSelect_nonempty by done.
  rewrite int_add_small by (unfold max_int in *; lia).
  rewrite !Z.rem_mod_nonneg by lia. by rewrite He.
Qed.

Lemma lbCursor_insert hs lb v :
  cursor {| healthStatus := hs;
            loadBalanceIdx := <[lbKey tenantID serviceName := v]> lb |} = v.
Proof. unfold lbCursor. simpl. by rewrite lookup_insert_eq. Qed.

Lemma roundRobinSelect_cursor s s' sel :
  endpoints ≠ [] → count ≤ max_int → 0 ≤ cursor s < max_int →
  rr s = Some (s', sel) →
  cursor s' = (cursor s + 1) `mod` count
  ∧ 0 ≤ cursor s' < max_int
  ∧ healthStatus s' = healthStatus s.
Proof.
  intros Hne Hlen Hc Hrr.
  destruct (roundRobinSelect_step s Hne Hlen Hc) as (e & _ & Hstep).
  rewrite Hstep in Hrr. simplify_eq.
  assert (0 < count) as Hpos by (destruct endpoints; simpl; [done|lia]).
  rewrite lbCursor_insert.
  pose proof (Z.mod_pos_bound (cursor s + 1) count Hpos).
  repeat split; lia.
Qed.

(** The range of the cursors is an invariant of the registry. *)
Lemma roundRobinSelect_cursors_in_range s s' sel :
  count ≤ max_int → cursors_in_range s →
  rr s = Some (s', sel) → cursors_in_range s'.
Proof.
  intros Hlen Hs Hrr.
  destruct (decide (endpoints = [])) as [Hnil|Hne].
  - unfold roundRobinSelect in Hrr. rewrite Hnil in Hrr. by simplify_eq.
  - pose proof (cursor_in_range s Hs) as Hc.
    destruct (roundRobinSelect_step s Hne Hlen Hc) as (e & _ & Hstep).
    rewrite Hstep in Hrr. simplify_eq.
    assert (0 < count) as Hpos by (destruct endpoints; simpl; [done|lia]).
    pose proof (Z.mod_pos_bound (cursor s + 1) count Hpos).
    intros k v. simpl. rewrite lookup_insert.
    case_decide; [intros; simplify_eq; lia|apply Hs].
Qed.

(** [k] calls in a row: the call number [i] (from 0) returns the endpoint
    at [(cursor + i) mod count]. *)
Lemma repeatSelect_roundRobin k : ∀ s,
  endpoints ≠ [] → count ≤ max_int → 0 ≤ cursor s < max_int →
  ∃ s' outs,
    calls k s = Some (s', outs)
    ∧ length outs = k
    ∧ (∀ i, (i < k)%nat →
         outs !! i
         = selectionOf <$> index endpoints ((cursor s + Z.of_nat i) `mod` count))
    ∧ cursor s' = (if k is O then cursor s
                   else (cursor s + Z.of_nat k) `mod` count)
    ∧ 0 ≤ cursor s' < max_int.
Proof.
  induction k as [|k IH]; intros s Hne Hlen Hc.
  - exists s, []. repeat split; try done; try lia; intros i ?; lia.
  - destruct (roundRobinSelect_step s Hne Hlen Hc) as (e & He & Hstep).
    destruct (roundRobinSelect_cursor s _ _ Hne Hlen Hc Hstep)
      as (Hc1 & Hr1 & _).
    set (s1 := {| healthStatus := healthStatus s;
                  loadBalanceIdx := <[lbKey tenantID serviceName :=
                    (cursor s + 1) `mod` count]> (loadBalanceIdx s) |}) in *.
    destruct (IH s1 Hne Hlen Hr1) as (s' & outs & Hrun & Hlo & Hout & Hcur & Hr).
    exists s', (selectionOf e :: outs).
    split; [|split; [|split; [|split]]].
    + simpl. rewrite Hstep. simpl. by rewrite Hrun.
    + simpl. by rewrite Hlo.
    + intros [|i] Hi; simpl.
      * by rewrite Z.add_0_r, He.
      * rewrite Hout by lia. rewrite Hc1, Zplus_mod_idemp_l.
        do 3 f_equal; lia.
    + rewrite Hcur, Hc1. destruct k as [|k'].
      * f_equal; lia.
      * rewrite Zplus_mod_idemp_l. f_equal; lia.
    + done.
Qed.

(** C4: with a non-empty candidate list of [count] endpoints (a Go slice,
    so [count ≤ max_int]) and a registry whose cursors are in the range
    every reachable registry keeps them in, every call returns [endpoints[cursor mod count]] and stores
    [(cursor + 1) mod count]; in any run of calls the call number [i]
    returns the endpoint at [(cursor + i) mod count], so the cycle repeats
    with period [count]; and [count] consecutive calls return the list
    rotated to start at the cursor, hence every candidate exactly once. *)
Theorem C4_round_robin_cycle s :
  endpoints ≠ [] → count ≤ max_int → cursors_in_range s →
  (∃ e s', index endpoints (cursor s `mod` count) = Some e
           ∧ rr s = Some (s', selectionOf e)
           ∧ cursor s' = (cursor s + 1) `mod` count)
  ∧ (∀ k, ∃ s' outs,
        calls k s = Some (s', outs)
        ∧ length outs = k
        ∧ (∀ i, (i < k)%nat →
             outs !! i = selectionOf <$>
               index endpoints ((cursor s + Z.of_nat i) `mod` count))
        ∧ (∀ i, (i + length endpoints < k)%nat →
             outs !! (i + length endpoints)%nat = outs !! i))
  ∧ (∃ s' outs,
        calls (length endpoints) s = Some (s', outs)
        ∧ outs = selectionOf <$> rotate (Z.to_nat (cursor s)) endpoints
        ∧ outs ≡ₚ selectionOf <$> endpoints
        ∧ cursor s' = cursor s `mod` count).
Proof.
  intros Hne Hlen Hc%cursor_in_range.
  assert (0 < count) as Hpos by (destruct endpoints; simpl; [done|lia]).
  split; [|split].
  - destruct (roundRobinSelect_step s Hne Hlen Hc) as (e & He & Hstep).
    destruct (roundRobinSelect_cursor s _ _ Hne Hlen Hc Hstep) as (Hc1 & _).
    eauto 10.
  - intros k.
    destruct (repeatSelect_roundRobin k s Hne Hlen Hc)
      as (s' & outs & Hrun & Hlo & Hout & _).
    exists s', outs. repeat split; try done.
    intros i Hi. rewrite !Hout by lia. do 2 f_equal.
    rewrite Nat2Z.inj_add, Z.add_assoc.
    rewrite <-(Z.mul_1_l count) at 1. apply Z.mod_add. lia.
  - destruct (repeatSelect_roundRobin (length endpoints) s Hne Hlen Hc)
      as (s' & outs & Hrun & Hlo & Hout & Hcur & _).
    assert (outs = selectionOf <$> rotate (Z.to_nat (cursor s)) endpoints)
      as Hrot.
    { apply list_eq. intros i. rewrite list_lookup_fmap.
      destruct (decide (i < length endpoints)%nat) as [Hi|Hi].
      - rewrite Hout, lookup_rotate_r by done.
        unfold rotate_nat_add. rewrite Z2Nat.id by lia.
        pose proof (Z.mod_pos_bound (cursor s + Z.of_nat i) count Hpos).
        unfold index.
        destruct (Z.ltb_spec ((cursor s + Z.of_nat i) `mod` count) 0); [lia|done].
      - rewrite !lookup_ge_None_2; [done| |lia].
        rewrite length_rotate. lia. }
    exists s', outs. repeat split; [done|done| |].
    + rewrite Hrot. apply fmap_Permutation.
      unfold rotate. by rewrite Permutation_app_comm, take_drop.
    + rewrite Hcur. destruct (length endpoints) eqn:Hl; [simpl in Hpos; lia|].
      rewrite <-(Z.mul_1_l (Z.of_nat (S n))) at 1. apply Z.mod_add. lia.
Qed.

End round_robin.

(** ** Random and weighted selection *)

Section weighted.
Context (draw : Z → Z) (Hdraw : draw_in_range draw).
Implicit Types (endpoints : list ServiceEndpoint).

(** The running sum of the second loop after the slice [done_] has been
    walked from the sum [acc]. *)
Local Abbreviation running acc done_ :=
  (foldl (fun a ep => int_add a (ep_Weight ep)) acc done_).

Lemma randomSelect_nonempty endpoints :
  endpoints ≠ [] →
  randomSelect draw endpoints
  = (idx ← Intn draw (Z.of_nat (length endpoints));
     endpoint ← index endpoints idx;
     Some (selectionOf endpoint)).
Proof. by destruct endpoints. Qed.

Lemma randomSelect_picks endpoints :
  endpoints ≠ [] →
  ∃ e, index endpoints (draw (Z.of_nat (length endpoints))) = Some e
       ∧ e ∈ endpoints
       ∧ randomSelect draw endpoints = Some (selectionOf e).
Proof.
  intros Hne.
  assert (0 < Z.of_nat (length endpoints)) as Hpos
    by (destruct endpoints; simpl; [done|lia]).
  destruct (index_in_range endpoints (draw (Z.of_nat (length endpoints))))
    as [e He]; [by apply Hdraw|].
  exists e. split; [done|]. split.
  - apply index_Some in He as [_ He]. by eapply list_elem_of_lookup_2.
  - rewrite randomSelect_nonempty by done. unfold Intn.
    destruct (Z.leb_spec (Z.of_nat (length endpoints)) 0); [lia|].
    simpl. by rewrite He.
Qed.

(** The walk stops at the first position whose running sum exceeds the
    draw, provided the sum over the whole slice does. *)
Lemma weightedWalk_first r endpoints : ∀ acc,
  acc ≤ r →
  r < running acc endpoints →
  ∃ i e,
    endpoints !! i = Some e
    ∧ weightedWalk r acc endpoints = Some e
    ∧ r < running acc (take (S i) endpoints)
    ∧ ∀ j, (j < i)%nat → running acc (take (S j) endpoints) ≤ r.
Proof.
  induction endpoints as [|ep rest IH]; intros acc Hacc Hr; simpl in *.
  - lia.
  - destruct (Z.ltb_spec r (int_add acc (ep_Weight ep))) as [Hlt|Hge].
    + exists 0%nat, ep. repeat split; try done. intros j ?; lia.
    + destruct (IH _ Hge Hr) as (i & e & Hi & Hw & Hlt' & Hmin).
      exists (S i), e. repeat split; try done.
      intros [|j] Hj; simpl; [done|]. apply Hmin. lia.
Qed.

Lemma weightedSelect_nonempty first rest :
  weightedSelect draw (first :: rest)
  = if totalWeight (first :: rest) =? 0 then randomSelect draw (first :: rest)
    else
      r ← Intn draw (totalWeight (first :: rest));
      match weightedWalk r 0 (first :: rest) with
      | Some ep => Some (selectionOf ep)
      | None => Some (selectionOf first)
      end.
Proof. reflexivity. Qed.

(** [weightedSelect] in terms of the sums its own loops compute. *)
Lemma weightedSelect_by_machine_sums endpoints :
  endpoints ≠ [] →
  (totalWeight endpoints = 0 →
     weightedSelect draw endpoints = randomSelect draw endpoints
     ∧ ∃ e, index endpoints (draw (Z.of_nat (length endpoints))) = Some e
            ∧ weightedSelect draw endpoints = Some (selectionOf e))
  ∧ (0 < totalWeight endpoints →
     ∃ i e,
       endpoints !! i = Some e
       ∧ weightedSelect draw endpoints = Some (selectionOf e)
       ∧ draw (totalWeight endpoints) < totalWeight (take (S i) endpoints)
       ∧ ∀ j, (j < i)%nat →
           totalWeight (take (S j) endpoints) ≤ draw (totalWeight endpoints))
  ∧ (0 ≤ totalWeight endpoints →
     ∃ e, e ∈ endpoints ∧ weightedSelect draw endpoints = Some (selectionOf e)).
Proof.
  intros Hne.
  assert (totalWeight endpoints = 0 →
          weightedSelect draw endpoints = randomSelect draw endpoints) as Hzero.
  { intros H0. destruct endpoints as [|first rest]; [done|].
    rewrite weightedSelect_nonempty, H0. done. }
  assert (0 < totalWeight endpoints →
     ∃ i e,
       endpoints !! i = Some e
       ∧ weightedSelect draw endpoints = Some (selectionOf e)
       ∧ draw (totalWeight endpoints) < totalWeight (take (S i) endpoints)
       ∧ ∀ j, (j < i)%nat →
           totalWeight (take (S j) endpoints) ≤ draw (totalWeight endpoints))
    as Hpos.
  { intros Hp. pose proof (Hdraw _ Hp) as [Hr0 Hr1].
    destruct (weightedWalk_first (draw (totalWeight endpoints)) endpoints 0)
      as (i & e & Hi & Hw & Hlt & Hmin); [done|done|].
    exists i, e. repeat split; [done| |done|done].
    destruct endpoints as [|first rest]; [done|].
    rewrite weightedSelect_nonempty.
    destruct (Z.eqb_spec (totalWeight (first :: rest)) 0); [lia|].
    unfold Intn.
    destruct (Z.leb_spec (totalWeight (first :: rest)) 0); [lia|].
    simpl mbind. simpl in Hw. by rewrite Hw. }
  split; [|split; [done|]].
  - intros H0. split; [by apply Hzero|].
    destruct (randomSelect_picks endpoints Hne) as (e & He & _ & Hsel).
    exists e. by rewrite Hzero.
  - intros Hge. destruct (decide (totalWeight endpoints = 0)) as [H0|Hn0].
    + destruct (randomSelect_picks endpoints Hne) as (e & _ & Hin & Hsel).
      exists e. by rewrite Hzero.
    + destruct Hpos as (i & e & Hi & Hsel & _); [lia|].
      exists e. split; [by eapply list_elem_of_lookup_2|done].
Qed.

Lemma weightSum_snoc endpoints e :
  weightSum (endpoints ++ [e]) = weightSum endpoints + ep_Weight e.
Proof.
  unfold weightSum. induction endpoints as [|x l IH]; simpl; [lia|].
  rewrite IH. lia.
Qed.

Lemma machine_sum_snoc endpoints e :
  totalWeight (endpoints ++ [e]) = int_add (totalWeight endpoints) (ep_Weight e).
Proof. unfold totalWeight. by rewrite foldl_app. Qed.

(** While no running sum overflows, the sums of the loops are the sums of
    the weights. *)
Lemma totalWeight_exact endpoints :
  sums_fit_int endpoints →
  ∀ k, totalWeight (take k endpoints) = weightSum (take k endpoints).
Proof.
  intros Hfit k. induction k as [|k IH]; [by rewrite take_0|].
  destruct (endpoints !! k) as [e|] eqn:Hk.
  - specialize (Hfit (S k)).
    rewrite (take_S_r _ _ _ Hk) in Hfit |- *.
    rewrite machine_sum_snoc, IH. rewrite weightSum_snoc in Hfit |- *.
    by apply int_add_small.
  - apply lookup_ge_None in Hk.
    rewrite take_ge in IH by done. by rewrite take_ge by lia.
Qed.

Lemma totalWeight_exact_all endpoints :
  sums_fit_int endpoints → totalWeight endpoints = weightSum endpoints.
Proof.
  intros Hfit. pose proof (totalWeight_exact endpoints Hfit (length endpoints)).
  by rewrite firstn_all in *.
Qed.

(** C5 (amended): on a non-empty candidate list none of whose running sums
    of weights overflows [int], with a draw function that honours the
    contract of [rand.Intn]: when the weights sum to zero, [weightedSelect]
    is [randomSelect] (the candidate at the index drawn below the length of
    the list); when the sum is positive and [r] is the draw below it, the
    result is the candidate at the first position whose running sum of
    weights exceeds [r]; in both cases the call returns, and what it
    returns is a member of the list. The sums are the sums of the weights
    themselves ([weightSum]). *)
Theorem C5_weighted_select endpoints :
  endpoints ≠ [] →
  sums_fit_int endpoints →
  (weightSum endpoints = 0 →
     weightedSelect draw endpoints = randomSelect draw endpoints
     ∧ ∃ e, index endpoints (draw (Z.of_nat (length endpoints))) = Some e
            ∧ weightedSelect draw endpoints = Some (selectionOf e))
  ∧ (0 < weightSum endpoints →
     ∃ i e,
       endpoints !! i = Some e
       ∧ weightedSelect draw endpoints = Some (selectionOf e)
       ∧ draw (weightSum endpoints) < weightSum (take (S i) endpoints)
       ∧ ∀ j, (j < i)%nat →
           weightSum (take (S j) endpoints) ≤ draw (weightSum endpoints))
  ∧ (0 ≤ weightSum endpoints →
     ∃ e, e ∈ endpoints ∧ weightedSelect draw endpoints = Some (selectionOf e)).
Proof.
  intros Hne Hfit.
  pose proof (totalWeight_exact endpoints Hfit) as Hexact.
  pose proof (totalWeight_exact_all endpoints Hfit) as Hall.
  destruct (weightedSelect_by_machine_sums endpoints Hne) as (Hzero & Hpos & Hge).
  rewrite Hall in Hzero, Hpos, Hge.
  split; [done|]. split; [|done].
  intros Hp. destruct (Hpos Hp) as (i & e & Hi & Hsel & Hlt & Hmin).
  exists i, e. split; [done|]. split; [done|].
  rewrite Hexact in Hlt. split; [done|].
  intros j Hj. rewrite <-Hexact. by apply Hmin.
Qed.

End weighted.

(** ** Strategy dispatch *)

Lemma repeatSelect_ext (f g : ServiceRegistry → option (ServiceRegistry * Selection)) n :
  (∀ s, f s = g s) → ∀ s, repeatSelect f n s = repeatSelect g n s.
Proof.
  intros Hfg. induction n as [|n IH]; intros s; simpl; [done|].
  rewrite Hfg. destruct (g s) as [[s1 sel]|]; simpl; [|done].
  by rewrite IH.
Qed.

Lemma selectEndpoint_round_robin s draw config :
  selectEndpoint s draw (withStrategy config LoadBalanceRoundRobin)
  = match GetActiveEndpoints config with
    | [] =>
        if bool_decide (ep_URL (sc_PrimaryEndpoint config) ≠ "") then
          Some (s, selectionOf (sc_PrimaryEndpoint config))
        else Some (s, (sc_DefaultServiceURL config, None))
    | _ :: _ =>
        roundRobinSelect s (sc_TenantID config) (sc_ServiceName config)
          (GetActiveEndpoints config)
    end.
Proof.
  unfold selectEndpoint.
  change (GetActiveEndpoints (withStrategy config LoadBalanceRoundRobin))
    with (GetActiveEndpoints config).
  by destruct (GetActiveEndpoints config).
Qed.

(** C6: a strategy string that is neither ["random"] nor ["weighted"]
    (an unknown word such as ["bogus"], the empty string of an unset field,
    ["least-conn"]) makes [selectEndpoint] return, from the same registry
    state, exactly what it returns for ["round-robin"]: the same selection
    and the same next state, whatever the random source; hence any number
    of repeated calls agree in every selection and in the final cursors. *)
Theorem C6_other_strategies_are_round_robin s draw draw' config strategy :
  strategy ≠ LoadBalanceRandom →
  strategy ≠ LoadBalanceWeighted →
  selectEndpoint s draw (withStrategy config strategy)
  = selectEndpoint s draw' (withStrategy config LoadBalanceRoundRobin)
  ∧ ∀ n s0,
      repeatSelect (λ s, selectEndpoint s draw (withStrategy config strategy)) n s0
      = repeatSelect
          (λ s, selectEndpoint s draw' (withStrategy config LoadBalanceRoundRobin))
          n s0.
Proof.
  intros Hr Hw.
  assert (∀ s, selectEndpoint s draw (withStrategy config strategy)
               = selectEndpoint s draw' (withStrategy config LoadBalanceRoundRobin))
    as Hsame.
  { intros s1. rewrite selectEndpoint_round_robin. unfold selectEndpoint.
    change (GetActiveEndpoints (withStrategy config strategy))
      with (GetActiveEndpoints config).
    destruct (GetActiveEndpoints config); [done|]. simpl.
    repeat case_bool_decide; done. }
  split; [apply Hsame|].
  intros n s0. by apply repeatSelect_ext.
Qed.

(** ** The health-aware fallback walk *)

Section fallback.
Context (s : ServiceRegistry) (now : Time).

Lemma reportFailures_fresh_unhealthy tenantID serviceName url ts :
  healthStatus s !! healthKey tenantID serviceName url = None →
  ts ≠ [] →
  isEndpointHealthy (reportFailures tenantID serviceName url s ts)
    tenantID serviceName url = false.
Proof.
  intros Hnone Hts. destruct ts as [|t ts]; [done|].
  rewrite reportFailures_cons.
  eapply reportFailures_stays_unhealthy; [apply UpdateHealthStatus_lookup|].
  by rewrite Hnone.
Qed.

(** C7 (amended): with an empty fallback chain, [ResolveFallbackChain]
    returns the primary endpoint exactly when the primary is active and
    healthy; otherwise it goes straight to [DefaultServiceURL], which it
    returns with [IsDefault = true] when that URL is not empty; when it is
    empty the resolution fails, with [Success = false], [IsDefault = false]
    and an error. *)
Theorem C7_empty_chain_primary_or_default config :
  sc_FallbackChain config = [] →
  let primary := sc_PrimaryEndpoint config in
  let usable :=
    ep_IsActive primary = true
    ∧ isEndpointHealthy s (sc_TenantID config) (sc_ServiceName config)
        (ep_URL primary) = true in
  let r := ResolveFallbackChain s now config in
  (res_UsedEndpoint r.1 = Some primary ∧ res_IsDefault r.1 = false ↔ usable)
  ∧ (usable →
       r.2 = None
       ∧ res_ResolvedURL r.1 = ep_URL primary
       ∧ res_Success r.1 = true
       ∧ res_AttemptedURLs r.1 = [])
  ∧ (¬ usable → sc_DefaultServiceURL config ≠ "" →
       r.2 = None
       ∧ res_ResolvedURL r.1 = sc_DefaultServiceURL config
       ∧ res_UsedEndpoint r.1 = None
       ∧ res_IsDefault r.1 = true
       ∧ res_Success r.1 = true
       ∧ res_AttemptedURLs r.1 = [ep_URL primary])
  ∧ (¬ usable → sc_DefaultServiceURL config = "" →
       r.2 = Some "no healthy endpoints available"
       ∧ res_ResolvedURL r.1 = ""
       ∧ res_UsedEndpoint r.1 = None
       ∧ res_IsDefault r.1 = false
       ∧ res_Success r.1 = false
       ∧ res_AttemptedURLs r.1 = [ep_URL primary]).
Proof.
  intros Hchain primary usable r. subst r usable primary.
  unfold ResolveFallbackChain. rewrite Hchain. simpl.
  destruct (ep_IsActive (sc_PrimaryEndpoint config)) eqn:Hact;
    destruct (isEndpointHealthy s (sc_TenantID config) (sc_ServiceName config)
                (ep_URL (sc_PrimaryEndpoint config))) eqn:Hh;
    simpl; try case_bool_decide; simpl;
    (split; [split; intros [? ?]; split; congruence|]);
    (split; [intros [? ?]; repeat split; congruence|]);
    split; intros Hnu HD;
    solve [ repeat split; congruence | exfalso; apply Hnu; by split ].
Qed.

(** C2 (amended): for a configuration with an inactive primary [A], the
    fallback chain [[B]] with [B] active and a non-empty default URL:
    while the registry holds no health record for [B] the resolution
    returns [B]; after [DefaultFailThreshold] (three) or more consecutive
    failure reports for [B] it returns the default URL with
    [IsDefault = true]. In both traces the URL of the skipped primary [A]
    is recorded: [AttemptedURLs] is [[A]], resp. [[A; B]]. *)
Theorem C2_inactive_primary_scenario config A B ts :
  sc_PrimaryEndpoint config = A → ep_IsActive A = false →
  sc_FallbackChain config = [B] → ep_IsActive B = true →
  sc_DefaultServiceURL config ≠ "" →
  healthStatus s
    !! healthKey (sc_TenantID config) (sc_ServiceName config) (ep_URL B) = None →
  DefaultFailThreshold ≤ Z.of_nat (length ts) →
  let r := ResolveFallbackChain s now config in
  let s' := reportFailures (sc_TenantID config) (sc_ServiceName config)
              (ep_URL B) s ts in
  let r' := ResolveFallbackChain s' now config in
  (r.2 = None
   ∧ res_ResolvedURL r.1 = ep_URL B
   ∧ res_UsedEndpoint r.1 = Some B
   ∧ res_IsDefault r.1 = false
   ∧ res_Success r.1 = true
   ∧ res_AttemptedURLs r.1 = [ep_URL A])
  ∧ (r'.2 = None
     ∧ res_ResolvedURL r'.1 = sc_DefaultServiceURL config
     ∧ res_UsedEndpoint r'.1 = None
     ∧ res_IsDefault r'.1 = true
     ∧ res_Success r'.1 = true
     ∧ res_AttemptedURLs r'.1 = [ep_URL A; ep_URL B]).
Proof.
  intros HA HAact Hchain HBact HD Hnone Hlen r s' r'. subst r r' s'.
  assert (ts ≠ []) as Hts by (intros ->; unfold DefaultFailThreshold in Hlen;
                              simpl in Hlen; lia).
  unfold ResolveFallbackChain. rewrite HA, Hchain, HAact. simpl.
  rewrite HBact. simpl.
  rewrite (reportFailures_fresh_unhealthy _ _ _ ts Hnone Hts).
  unfold isEndpointHealthy at 1 2 3 4 5 6. rewrite Hnone. simpl.
  rewrite bool_decide_true by done. simpl. done.
Qed.

End fallback.

(** ** Reachable registries keep their cursors in range *)

Lemma NewServiceRegistry_cursors_in_range : cursors_in_range NewServiceRegistry.
Proof. intros k v. simpl. by rewrite lookup_empty. Qed.

Lemma UpdateHealthStatus_cursors_in_range s now1 now2 tenantID serviceName url healthy :
  cursors_in_range s →
  cursors_in_range (UpdateHealthStatus s now1 now2 tenantID serviceName url healthy).
Proof.
  intros Hs. unfold UpdateHealthStatus.
  by destruct (healthStatus s !! healthKey tenantID serviceName url).
Qed.

Lemma selectEndpoint_cursors_in_range s draw config s' sel :
  Z.of_nat (length (GetActiveEndpoints config)) ≤ max_int →
  cursors_in_range s →
  selectEndpoint s draw config = Some (s', sel) → cursors_in_range s'.
Proof.
  intros Hlen Hs. unfold selectEndpoint.
  destruct (GetActiveEndpoints config) as [|e0 rest] eqn:Hact.
  - case_bool_decide; intros; by simplify_eq.
  - repeat case_bool_decide;
      try (by apply roundRobinSelect_cursors_in_range);
      intros Hsel; apply bind_Some in Hsel as (? & _ & ?); by simplify_eq.
Qed.

(** * Concrete runs *)

(** C1, as stated, fails on a key the registry has not seen: two failure
    reports, one fewer than the default threshold, already leave the
    endpoint unhealthy. It also fails for a configured threshold other than
    three: after a success report, three failures flip the endpoint although
    the health check of the service asks for five. *)
Lemma C1_two_failures_flip_fresh_key :
  let url := ep_URL epB in
  let twice := reportFailures "acme" "user" url NewServiceRegistry
                 [(11, 11); (12, 12)] in
  let revived := UpdateHealthStatus NewServiceRegistry 10 10 "acme" "user" url true in
  Z.of_nat (length [(11, 11); (12, 12)]) = DefaultFailThreshold - 1
  ∧ isEndpointHealthy twice "acme" "user" url = false
  ∧ hc_FailThreshold (sampleHealthCheck 5) = 5
  ∧ Z.of_nat (length threeFailures) < hc_FailThreshold (sampleHealthCheck 5) - 1
  ∧ isEndpointHealthy (reportFailures "acme" "user" url revived threeFailures)
      "acme" "user" url = false.
Proof. by vm_compute. Qed.

Lemma C1_three_failures_flip_witness :
  let url := ep_URL epB in
  let revived := UpdateHealthStatus NewServiceRegistry 10 10 "acme" "user" url true in
  isEndpointHealthy (reportFailures "acme" "user" url revived [(11, 11); (12, 12)])
    "acme" "user" url = true
  ∧ isEndpointHealthy (reportFailures "acme" "user" url revived threeFailures)
      "acme" "user" url = false.
Proof.
  intros url revived. split.
  - rewrite (C1_three_failures_flip "acme" "user" url revived
               (freshStatus "acme" "user" url 10 true) [(11, 11); (12, 12)]);
      by vm_compute.
  - rewrite (C1_three_failures_flip "acme" "user" url revived
               (freshStatus "acme" "user" url 10 true) threeFailures);
      by vm_compute.
Defined.

(** C2, as stated, fails on [scenarioConfig]: once [epB] has been reported
    unhealthy three times the resolution falls back to the default URL, but
    the trace lists the inactive primary as well. *)
Lemma C2_inactive_primary_is_recorded :
  let s' := reportFailures "acme" "user" (ep_URL epB) NewServiceRegistry
              threeFailures in
  let r := ResolveFallbackChain s' 20 scenarioConfig in
  res_IsDefault r.1 = true
  ∧ res_AttemptedURLs r.1 = [ep_URL epA; ep_URL epB]
  ∧ res_AttemptedURLs r.1 ≠ [ep_URL epB].
Proof. by vm_compute. Qed.

Lemma C2_inactive_primary_scenario_witness :
  res_ResolvedURL (ResolveFallbackChain NewServiceRegistry 20 scenarioConfig).1
  = ep_URL epB
  ∧ res_AttemptedURLs
      (ResolveFallbackChain
         (reportFailures "acme" "user" (ep_URL epB) NewServiceRegistry threeFailures)
         20 scenarioConfig).1
    = [ep_URL epA; ep_URL epB].
Proof.
  destruct (C2_inactive_primary_scenario NewServiceRegistry 20 scenarioConfig
              epA epB threeFailures) as [H1 H2]; [by vm_compute..|].
  split; [apply H1|apply H2].
Defined.

Lemma C4_round_robin_cycle_witness :
  ∃ s' outs,
    repeatSelect (λ s, roundRobinSelect s "acme" "user" [epP; epF1; epF2])
      3 NewServiceRegistry = Some (s', outs)
    ∧ outs = selectionOf <$> rotate 0 [epP; epF1; epF2]
    ∧ outs ≡ₚ selectionOf <$> [epP; epF1; epF2]
    ∧ lbCursor s' "acme" "user" = 0.
Proof.
  destruct (C4_round_robin_cycle "acme" "user" [epP; epF1; epF2]
              NewServiceRegistry) as (_ & _ & Hcycle).
  - done.
  - by vm_compute.
  - apply NewServiceRegistry_cursors_in_range.
  - exact Hcycle.
Defined.

(** C5, as stated, fails when the sum of the weights overflows: the weights
    of [[epHuge; epP]] sum to a positive number, yet the sum the code
    computes wraps to a negative one, [rand.Intn] panics on it and no
    candidate is returned, whatever the random source. *)
Lemma C5_overflowing_weights_panic :
  [epHuge; epP] ≠ []
  ∧ 0 ≤ ep_Weight epHuge ∧ 0 ≤ ep_Weight epP
  ∧ weightSum [epHuge; epP] = 2 ^ 63
  ∧ 0 < weightSum [epHuge; epP]
  ∧ totalWeight [epHuge; epP] = - 2 ^ 63
  ∧ ∀ draw, weightedSelect draw [epHuge; epP] = None.
Proof.
  split; [done|]. repeat split; try by vm_compute.
Qed.

Lemma C5_weighted_select_witness :
  ∃ i e,
    [epP; epF1; epF2] !! i = Some e
    ∧ weightedSelect drawLast [epP; epF1; epF2] = Some (selectionOf e)
    ∧ drawLast (weightSum [epP; epF1; epF2])
      < weightSum (take (S i) [epP; epF1; epF2]).
Proof.
  assert (draw_in_range drawLast) as Hdraw
    by (intros n Hn; unfold drawLast; lia).
  destruct (C5_weighted_select drawLast Hdraw [epP; epF1; epF2])
    as (_ & Hpos & _).
  - done.
  - intros [|[|[|k]]]; unfold weightSum; simpl; rewrite ?take_nil; simpl; lia.
  - destruct Hpos as (i & e & Hi & Hsel & Hlt & _); [by vm_compute|].
    by exists i, e.
Defined.

Lemma C6_other_strategies_are_round_robin_witness :
  selectEndpoint NewServiceRegistry drawLast (withStrategy tiedConfig "bogus")
  = selectEndpoint NewServiceRegistry drawLast
      (withStrategy tiedConfig LoadBalanceRoundRobin)
  ∧ selectEndpoint NewServiceRegistry drawLast (withStrategy tiedConfig "")
    = selectEndpoint NewServiceRegistry drawLast
        (withStrategy tiedConfig LoadBalanceRoundRobin)
  ∧ selectEndpoint NewServiceRegistry drawLast
      (withStrategy tiedConfig LoadBalanceLeastConn)
    = selectEndpoint NewServiceRegistry drawLast
        (withStrategy tiedConfig LoadBalanceRoundRobin).
Proof.
  split; [|split].
  - apply (C6_other_strategies_are_round_robin NewServiceRegistry drawLast
             drawLast tiedConfig "bogus"); by vm_compute.
  - apply (C6_other_strategies_are_round_robin NewServiceRegistry drawLast
             drawLast tiedConfig ""); by vm_compute.
  - apply (C6_other_strategies_are_round_robin NewServiceRegistry drawLast
             drawLast tiedConfig LoadBalanceLeastConn); by vm_compute.
Defined.

(** C7, as stated, fails on [bareConfig]: the chain is empty, the primary is
    inactive and there is no default URL, so the resolution does not return
    a default (its [IsDefault] is false) but fails with an error. *)
Lemma C7_empty_default_fails :
  let r := ResolveFallbackChain NewServiceRegistry 20 bareConfig in
  sc_FallbackChain bareConfig = []
  ∧ ep_IsActive (sc_PrimaryEndpoint bareConfig) = false
  ∧ res_UsedEndpoint r.1 = None
  ∧ res_IsDefault r.1 = false
  ∧ res_Success r.1 = false
  ∧ r.2 = Some "no healthy endpoints available".
Proof. by vm_compute. Qed.

Lemma C7_empty_chain_primary_or_default_witness :
  let config := sampleConfig epA [] "http://default:8080" "round-robin" in
  let r := ResolveFallbackChain NewServiceRegistry 20 config in
  r.2 = None
  ∧ res_ResolvedURL r.1 = "http://default:8080"
  ∧ res_UsedEndpoint r.1 = None
  ∧ res_IsDefault r.1 = true
  ∧ res_Success r.1 = true
  ∧ res_AttemptedURLs r.1 = [ep_URL epA].
Proof.
  intros config r.
  destruct (C7_empty_chain_primary_or_default NewServiceRegistry 20 config)
    as (_ & _ & Hdefault & _); [done|].
  apply Hdefault.
  - intros [Hact _]. by vm_compute in Hact.
  - by vm_compute.
Defined.

Lemma C8_absent_record_is_healthy_witness :
  isEndpointHealthy NewServiceRegistry "acme" "user" (ep_URL epB) = true
  ∧ st_IsHealthy (GetHealthStatus NewServiceRegistry 20 "acme" "user" (ep_URL epB))
    = true
  ∧ st_ConsecutiveFails
      (GetHealthStatus NewServiceRegistry 20 "acme" "user" (ep_URL epB)) = 0.
Proof.
  destruct (C8_absent_record_is_healthy "acme" "user" (ep_URL epB)
              NewServiceRegistry 20) as (H1 & _ & H2 & H3); [by vm_compute|].
  done.
Defined.

Lemma C10_first_report_creates_record_witness :
  healthStatus
    (UpdateHealthStatus NewServiceRegistry 11 12 "acme" "user" (ep_URL epB) false)
    !! healthKey "acme" "user" (ep_URL epB)
  = Some (freshStatus "acme" "user" (ep_URL epB) 11 false).
Proof.
  destruct (C10_first_report_creates_record "acme" "user" (ep_URL epB)
              NewServiceRegistry 11 12 false) as (H1 & _); [by vm_compute|].
  exact H1.
Defined.

(** * Further properties of the code *)

(** ** Configuration values *)

(** X1: [Validate] accepts a configuration exactly when the tenant id, the
    service name and the URL of the primary endpoint are all non-empty, and
    nothing else is inspected; the error it returns is the validation error
    of the first empty field in that order. *)
Theorem X1_Validate_first_empty_field (sc : ServiceConfig) :
  (Validate sc = None ↔
     sc_TenantID sc ≠ "" ∧ sc_ServiceName sc ≠ ""
     ∧ ep_URL (sc_PrimaryEndpoint sc) ≠ "")
  ∧ (sc_TenantID sc = "" → Validate sc = Some ErrTenantIDRequired)
  ∧ (sc_TenantID sc ≠ "" → sc_ServiceName sc = "" →
       Validate sc = Some ErrServiceNameRequired)
  ∧ (sc_TenantID sc ≠ "" → sc_ServiceName sc ≠ "" →
       ep_URL (sc_PrimaryEndpoint sc) = "" →
       Validate sc = Some ErrPrimaryEndpointRequired)
  ∧ (∀ e, Validate sc = Some e → ∃ msg, e = ValidationError msg).
Proof.
  unfold Validate.
  repeat case_bool_decide; (split; [split; [intros ?|intros (? & ? & ?)]|]);
    try done; repeat split; try done;
    intros e ?; simplify_eq; eexists; reflexivity.
Qed.

(** X2: [GetHealthCheckInterval] always returns a positive number of
    seconds: the configured interval when that is positive, 30 otherwise. *)
Theorem X2_GetHealthCheckInterval_positive (sc : ServiceConfig) :
  0 < GetHealthCheckInterval sc
  ∧ (0 < hc_Interval (sc_HealthCheck sc) →
       GetHealthCheckInterval sc = hc_Interval (sc_HealthCheck sc))
  ∧ (hc_Interval (sc_HealthCheck sc) ≤ 0 → GetHealthCheckInterval sc = 30).
Proof.
  unfold GetHealthCheckInterval, DefaultHealthCheckInterval.
  destruct (Z.leb_spec (hc_Interval (sc_HealthCheck sc)) 0); repeat split; lia.
Qed.

Lemma filter_active_nil (l : list ServiceEndpoint) :
  filter (λ e, ep_IsActive e = true) l = []
  ↔ Forall (λ e, ep_IsActive e = false) l.
Proof.
  induction l as [|e l IH]; [by split|].
  rewrite filter_cons, Forall_cons.
  destruct (ep_IsActive e) eqn:Hact; case_decide; try done.
  - split; [done|]. by intros [? _].
  - rewrite IH. tauto.
Qed.

Lemma GetActiveEndpoints_filter (sc : ServiceConfig) :
  GetActiveEndpoints sc
  = filter (λ e, ep_IsActive e = true)
      (sc_PrimaryEndpoint sc :: sc_FallbackChain sc).
Proof.
  unfold GetActiveEndpoints. rewrite filter_cons.
  destruct (ep_IsActive (sc_PrimaryEndpoint sc)) eqn:Hact; case_decide; done.
Qed.

Lemma GetActiveEndpoints_active (sc : ServiceConfig) (e : ServiceEndpoint) :
  e ∈ GetActiveEndpoints sc → ep_IsActive e = true.
Proof.
  rewrite GetActiveEndpoints_filter. by intros [? _]%list_elem_of_filter.
Qed.

(** X3: [GetActiveEndpoints] is the list primary :: fallback chain with the
    inactive entries removed: the order is kept, every entry is active, and
    the result is empty exactly when no endpoint of the configuration is
    active. *)
Theorem X3_GetActiveEndpoints_filters (sc : ServiceConfig) :
  let all := sc_PrimaryEndpoint sc :: sc_FallbackChain sc in
  GetActiveEndpoints sc = filter (λ e, ep_IsActive e = true) all
  ∧ GetActiveEndpoints sc `sublist_of` all
  ∧ Forall (λ e, ep_IsActive e = true) (GetActiveEndpoints sc)
  ∧ (GetActiveEndpoints sc = [] ↔ Forall (λ e, ep_IsActive e = false) all).
Proof.
  intros all.
  rewrite GetActiveEndpoints_filter. fold all.
  split; [done|]. split; [apply sublist_filter|]. split.
  - apply Forall_forall. intros e He. by apply list_elem_of_filter in He as [? _].
  - apply filter_active_nil.
Qed.

Section sorted_input.
Implicit Types (l : list ServiceEndpoint).

Lemma StronglySorted_prio_lookup l :
  StronglySorted prio_le l → prefix_settled (length l) l.
Proof.
  induction 1 as [|x l Hs IH Hall]; intros a b u v Ha Hab Hu Hv.
  - by rewrite lookup_nil in Hu.
  - destruct b as [|b]; [lia|]. destruct a as [|a]; simpl in *.
    + simplify_eq. rewrite Forall_lookup in Hall. by apply (Hall b).
    + apply (IH a b); auto with lia.
Qed.

Lemma sortStep_settled i j l :
  (i < j)%nat → prefix_settled (length l) l → sortStep i l j = l.
Proof.
  intros Hij Hs. unfold sortStep.
  destruct (l !! i) as [ei|] eqn:Hei; [|done].
  destruct (l !! j) as [ej|] eqn:Hej; [|done].
  apply lookup_lt_Some in Hej as Hj.
  assert (ep_Priority ei ≤ ep_Priority ej) by (apply (Hs i j); auto with lia).
  destruct (Z.ltb_spec (ep_Priority ej) (ep_Priority ei)); [lia|done].
Qed.

Lemma sortInner_settled i l :
  prefix_settled (length l) l → sortInner l i = l.
Proof.
  intros Hs. unfold sortInner.
  assert (∀ js, Forall (λ j, i < j)%nat js → foldl (sortStep i) l js = l) as Hfold.
  { induction js as [|j js IH]; intros Hjs; simpl; [done|].
    apply Forall_cons in Hjs as [Hj Hjs].
    rewrite sortStep_settled by done. by apply IH. }
  apply Hfold, Forall_seq. intros j ?. lia.
Qed.

Lemma sortByPriority_settled l :
  prefix_settled (length l) l → sortByPriority l = l.
Proof.
  intros Hs. unfold sortByPriority.
  induction (seq 0 (length l)) as [|i is_ IH]; simpl; [done|].
  by rewrite sortInner_settled.
Qed.

(** X4: when the active endpoints already are in ascending order of
    priority, [GetEndpointByPriority] returns them as they are (no swap
    happens, ties included); hence sorting its own result changes nothing. *)
Theorem X4_sorted_input_is_kept (sc : ServiceConfig) :
  (StronglySorted prio_le (GetActiveEndpoints sc) →
     GetEndpointByPriority sc = GetActiveEndpoints sc)
  ∧ sortByPriority (GetEndpointByPriority sc) = GetEndpointByPriority sc.
Proof.
  unfold GetEndpointByPriority. split.
  - intros Hs. by apply sortByPriority_settled, StronglySorted_prio_lookup.
  - apply sortByPriority_settled.
    destruct (sortByPriority_spec (GetActiveEndpoints sc)) as (Hlen & _ & Hs).
    by rewrite Hlen.
Qed.

End sorted_input.

Section stable_when_distinct.
Implicit Types (l : list ServiceEndpoint).

Lemma insertByPriority_Permutation x l : insertByPriority x l ≡ₚ x :: l.
Proof.
  induction l as [|y l IH]; simpl; [done|].
  case_match; [done|]. by rewrite IH, Permutation_swap.
Qed.

Lemma insertByPriority_sorted x l :
  StronglySorted prio_le l → StronglySorted prio_le (insertByPriority x l).
Proof.
  induction 1 as [|y l Hs IH Hall]; simpl.
  - repeat constructor.
  - destruct (Z.leb_spec (ep_Priority x) (ep_Priority y)) as [Hle|Hgt].
    + constructor; [by constructor|]. constructor; [done|].
      eapply Forall_impl; [exact Hall|]. unfold prio_le. intros; lia.
    + constructor; [done|]. rewrite insertByPriority_Permutation.
      constructor; [unfold prio_le; lia|done].
Qed.

Lemma stableSortByPriority_spec l :
  stableSortByPriority l ≡ₚ l ∧ StronglySorted prio_le (stableSortByPriority l).
Proof.
  induction l as [|x l [IHp IHs]]; simpl; [split; [done|constructor]|].
  split; [by rewrite insertByPriority_Permutation, IHp|].
  by apply insertByPriority_sorted.
Qed.

(** Lists without two endpoints of the same priority have one sorted
    arrangement only. *)
Lemma sorted_arrangement_unique l1 : ∀ l2,
  NoDup (ep_Priority <$> l1) → l1 ≡ₚ l2 →
  StronglySorted prio_le l1 → StronglySorted prio_le l2 → l1 = l2.
Proof.
  induction l1 as [|x l1 IH]; intros l2 Hnd Hperm Hs1 Hs2.
  - by apply Permutation_nil_l in Hperm.
  - destruct l2 as [|y l2]; [by apply Permutation_nil_r in Hperm|].
    apply StronglySorted_inv in Hs1 as [Hs1 Hall1].
    apply StronglySorted_inv in Hs2 as [Hs2 Hall2].
    rewrite fmap_cons in Hnd. apply NoDup_cons in Hnd as [Hx Hnd].
    rewrite Forall_forall in Hall1, Hall2.
    assert (y ∈ x :: l1) as Hy by (rewrite Hperm; left).
    assert (x ∈ y :: l2) as Hx' by (rewrite <-Hperm; left).
    assert (x = y) as ->.
    { apply elem_of_cons in Hy as [->|Hy]; [done|].
      apply elem_of_cons in Hx' as [->|Hx']; [done|].
      pose proof (Hall1 _ Hy). pose proof (Hall2 _ Hx').
      exfalso. apply Hx.
      replace (ep_Priority x) with (ep_Priority y)
        by (unfold prio_le in *; lia).
      by apply list_elem_of_fmap_2. }
    f_equal. apply IH; [done| |done|done].
    by apply Permutation_cons_inv in Hperm.
Qed.

(** X5: when no two active endpoints have the same priority,
    [GetEndpointByPriority] returns exactly the stable ascending sort of the
    active endpoints; the order it gives can differ from it only among
    endpoints of equal priority. *)
Theorem X5_distinct_priorities_sorted_as_specified (sc : ServiceConfig) :
  NoDup (ep_Priority <$> GetActiveEndpoints sc) →
  GetEndpointByPriority sc = stableSortByPriority (GetActiveEndpoints sc).
Proof.
  intros Hnd. unfold GetEndpointByPriority.
  destruct (sortByPriority_spec (GetActiveEndpoints sc)) as (Hlen & Hperm & Hs).
  destruct (stableSortByPriority_spec (GetActiveEndpoints sc)) as [Hperm' Hs'].
  apply sorted_arrangement_unique.
  - by rewrite Hperm.
  - by rewrite Hperm, Hperm'.
  - apply prefix_settled_sorted. by rewrite Hlen.
  - done.
Qed.

End stable_when_distinct.

Lemma X5_distinct_priorities_sorted_as_specified_witness :
  GetEndpointByPriority distinctConfig = [epF3; epF2; epP].
Proof.
  rewrite (X5_distinct_priorities_sorted_as_specified distinctConfig).
  - by vm_compute.
  - apply (bool_decide_unpack _). by vm_compute.
Defined.

(** ** The health table: frame, readers, eviction *)

Lemma append_assoc (a b c : string) : (a +:+ b) +:+ c = a +:+ b +:+ c.
Proof.
  induction a as [|ch a IH]; [done|].
  change (String ch ((a +:+ b) +:+ c) = String ch (a +:+ b +:+ c)).
  by rewrite IH.
Qed.

Section health_table.
Context (tenantID serviceName url : string).

Local Abbreviation key := (healthKey tenantID serviceName url).
Local Abbreviation report s now1 now2 healthy :=
  (UpdateHealthStatus s now1 now2 tenantID serviceName url healthy).

(** X6: a report changes the record of its own key only: every other record
    of the health table and every round-robin cursor stay as they were. *)
Theorem X6_report_touches_one_record s now1 now2 healthy :
  let s' := UpdateHealthStatus s now1 now2 tenantID serviceName url healthy in
  (∀ k, k ≠ healthKey tenantID serviceName url →
     healthStatus s' !! k = healthStatus s !! k)
  ∧ loadBalanceIdx s' = loadBalanceIdx s
  ∧ st_LastChecked <$> healthStatus s' !! healthKey tenantID serviceName url
    = Some now1.
Proof.
  intros s'. subst s'.
  split; [|split].
  - intros k Hk. unfold UpdateHealthStatus.
    destruct (healthStatus s !! key); simpl; by rewrite lookup_insert_ne.
  - unfold UpdateHealthStatus. by destruct (healthStatus s !! key).
  - rewrite UpdateHealthStatus_lookup. simpl.
    destruct (healthStatus s !! key); [|done]. by destruct healthy.
Qed.

(** X7: the two readers agree: the [IsHealthy] of the record
    [GetHealthStatus] returns is the answer of [isEndpointHealthy]; and for
    a key with a record [GetHealthStatus] returns that record unchanged,
    whatever the time of the call. *)
Theorem X7_readers_agree s now :
  st_IsHealthy (GetHealthStatus s now tenantID serviceName url)
  = isEndpointHealthy s tenantID serviceName url
  ∧ (∀ status, healthStatus s !! key = Some status →
       GetHealthStatus s now tenantID serviceName url = status).
Proof.
  unfold GetHealthStatus, isEndpointHealthy.
  destruct (healthStatus s !! key); split; try done; by intros ? [= ->].
Qed.

(** The failure counter after a run of failures on an existing record. *)
Lemma reportFailures_counter ts : ∀ s status,
  healthStatus s !! key = Some status →
  0 ≤ st_ConsecutiveFails status →
  st_ConsecutiveFails status + Z.of_nat (length ts) ≤ max_int →
  ∃ status',
    healthStatus (reportFailures tenantID serviceName url s ts) !! key
    = Some status'
    ∧ st_ConsecutiveFails status'
      = st_ConsecutiveFails status + Z.of_nat (length ts).
Proof.
  induction ts as [|t ts IH]; intros s status Hs Hc Hmax.
  - exists status. rewrite reportFailures_nil. split; [done|simpl; lia].
  - rewrite reportFailures_cons.
    pose proof (UpdateHealthStatus_lookup tenantID serviceName url s t.1 t.2 false)
      as Hl.
    rewrite Hs in Hl. simpl length in Hmax.
    destruct (IH _ _ Hl) as (status' & Hs' & Hc'); simpl.
    + rewrite int_add_small by (unfold max_int in *; lia). lia.
    + rewrite int_add_small by (unfold max_int in *; lia). lia.
    + exists status'. split; [done|]. rewrite Hc'. simpl.
      rewrite int_add_small by (unfold max_int in *; lia). lia.
Qed.

(** X8: on a key without a record the first failure is stored but not
    counted: after a run of [n ≥ 1] failure reports the endpoint is
    unhealthy and [ConsecutiveFails] is [n - 1]. *)
Theorem X8_first_failure_is_not_counted s ts :
  healthStatus s !! key = None →
  ts ≠ [] →
  Z.of_nat (length ts) ≤ max_int →
  ∃ status,
    healthStatus (reportFailures tenantID serviceName url s ts) !! key
    = Some status
    ∧ st_IsHealthy status = false
    ∧ st_ConsecutiveFails status = Z.of_nat (length ts) - 1.
Proof.
  intros Hnone Hne Hmax. destruct ts as [|t ts]; [done|].
  rewrite reportFailures_cons.
  pose proof (UpdateHealthStatus_lookup tenantID serviceName url s t.1 t.2 false)
    as Hl.
  rewrite Hnone in Hl. simpl length in Hmax.
  destruct (reportFailures_counter ts _ _ Hl) as (status & Hs & Hc);
    [simpl; lia|simpl; lia|].
  exists status. split; [done|]. split.
  - rewrite <-(isEndpointHealthy_lookup _ _ _ _ _ Hs).
    by eapply reportFailures_stays_unhealthy.
  - rewrite Hc. simpl. lia.
Qed.

(** X9: evicting a key makes its endpoint healthy again, whatever was
    recorded, and touches neither the other records nor the cursors; the
    history is gone, so a single failure reported afterwards marks the
    endpoint unhealthy at once. *)
Theorem X9_InvalidateCache_resets_one_key s now1 now2 :
  let s' := InvalidateCache s tenantID serviceName url in
  isEndpointHealthy s' tenantID serviceName url = true
  ∧ healthStatus s' !! key = None
  ∧ (∀ k, k ≠ key → healthStatus s' !! k = healthStatus s !! k)
  ∧ loadBalanceIdx s' = loadBalanceIdx s
  ∧ isEndpointHealthy (report s' now1 now2 false) tenantID serviceName url
    = false.
Proof.
  intros s'. subst s'.
  assert (healthStatus (InvalidateCache s tenantID serviceName url) !! key = None)
    as Hnone by apply lookup_delete_eq.
  repeat split; try done.
  - unfold isEndpointHealthy. by rewrite Hnone.
  - intros k Hk. simpl. by rewrite lookup_delete_ne.
  - erewrite isEndpointHealthy_lookup; [|apply UpdateHealthStatus_lookup].
    by rewrite Hnone.
Qed.

(** X13: failure reports never revive an endpoint: once it is unhealthy it
    stays so through any run of failures. *)
Theorem X13_failures_never_revive s ts :
  isEndpointHealthy s tenantID serviceName url = false →
  isEndpointHealthy (reportFailures tenantID serviceName url s ts)
    tenantID serviceName url = false.
Proof.
  unfold isEndpointHealthy at 1.
  destruct (healthStatus s !! key) as [status|] eqn:Hs; [|done].
  intros Hunh. by eapply reportFailures_stays_unhealthy.
Qed.

End health_table.

(** X10: [InvalidateAllCache] leaves no record: every endpoint of every
    tenant is healthy again and the listing is empty, while the round-robin
    cursors keep their positions. *)
Theorem X10_InvalidateAllCache_resets_all (s : ServiceRegistry) :
  (∀ tenantID serviceName url,
     isEndpointHealthy (InvalidateAllCache s) tenantID serviceName url = true)
  ∧ GetAllHealthStatus (InvalidateAllCache s) = []
  ∧ loadBalanceIdx (InvalidateAllCache s) = loadBalanceIdx s.
Proof.
  split; [|split; [|done]].
  - intros t sv u. unfold isEndpointHealthy. simpl. by rewrite lookup_empty.
  - unfold GetAllHealthStatus. simpl. by rewrite map_to_list_empty.
Qed.

(** X11: [GetAllHealthStatus] lists each stored record once: a record is
    listed exactly when some key holds it, the first report on a key adds
    its new record to the listing, and a report on a known key keeps the
    number of records. *)
Theorem X11_GetAllHealthStatus_lists_records (s : ServiceRegistry)
    (now1 now2 : Time) (tenantID serviceName url : string) (healthy : bool) :
  let s' := UpdateHealthStatus s now1 now2 tenantID serviceName url healthy in
  length (GetAllHealthStatus s) = size (healthStatus s)
  ∧ (∀ status, status ∈ GetAllHealthStatus s ↔
               ∃ k, healthStatus s !! k = Some status)
  ∧ (healthStatus s !! healthKey tenantID serviceName url = None →
       GetAllHealthStatus s'
       ≡ₚ freshStatus tenantID serviceName url now1 healthy
          :: GetAllHealthStatus s)
  ∧ (is_Some (healthStatus s !! healthKey tenantID serviceName url) →
       length (GetAllHealthStatus s') = length (GetAllHealthStatus s)).
Proof.
  intros s'. subst s'. unfold GetAllHealthStatus.
  split; [|split; [|split]].
  - by rewrite length_fmap, length_map_to_list.
  - intros status. rewrite list_elem_of_fmap. split.
    + intros ([k st] & -> & Hin). exists k. by apply elem_of_map_to_list.
    + intros [k Hk]. exists (k, status). split; [done|].
      by apply elem_of_map_to_list.
  - intros Hnone. unfold UpdateHealthStatus. rewrite Hnone. simpl.
    by rewrite map_to_list_insert.
  - intros [status Hs]. unfold UpdateHealthStatus. rewrite Hs. simpl.
    rewrite !length_fmap, !length_map_to_list.
    rewrite map_size_insert_Some; [done|by eexists].
Qed.

(** X12: the keys of both tables are the identifiers joined by colons, so
    identifiers that contain a colon can meet: tenant [t:x] with service
    [sv] and tenant [t] with service [x:sv] share their health records and
    their round-robin cursor. A failure reported for the first marks the
    endpoint of the second. *)
Theorem X12_colon_joined_keys_collide (t x sv u : string) :
  healthKey (t +:+ ":" +:+ x) sv u = healthKey t (x +:+ ":" +:+ sv) u
  ∧ lbKey (t +:+ ":" +:+ x) sv = lbKey t (x +:+ ":" +:+ sv)
  ∧ (∀ s, isEndpointHealthy s (t +:+ ":" +:+ x) sv u
          = isEndpointHealthy s t (x +:+ ":" +:+ sv) u)
  ∧ (∀ s ts,
       ts ≠ [] →
       healthStatus s !! healthKey t (x +:+ ":" +:+ sv) u = None →
       isEndpointHealthy
         (reportFailures (t +:+ ":" +:+ x) sv u s ts) t (x +:+ ":" +:+ sv) u
       = false).
Proof.
  assert (healthKey (t +:+ ":" +:+ x) sv u = healthKey t (x +:+ ":" +:+ sv) u)
    as Hkey.
  { unfold healthKey. by rewrite !append_assoc. }
  split; [done|]. split; [unfold lbKey; by rewrite !append_assoc|].
  assert (∀ s, isEndpointHealthy s (t +:+ ":" +:+ x) sv u
               = isEndpointHealthy s t (x +:+ ":" +:+ sv) u) as Hread.
  { intros s. unfold isEndpointHealthy. by rewrite Hkey. }
  split; [done|].
  intros s ts Hne Hnone. rewrite <-Hread.
  apply reportFailures_fresh_unhealthy; [by rewrite Hkey|done].
Qed.

Lemma X8_first_failure_is_not_counted_witness :
  ∃ status,
    healthStatus
      (reportFailures "acme" "user" (ep_URL epB) NewServiceRegistry threeFailures)
      !! healthKey "acme" "user" (ep_URL epB) = Some status
    ∧ st_IsHealthy status = false
    ∧ st_ConsecutiveFails status = 2.
Proof.
  apply (X8_first_failure_is_not_counted "acme" "user" (ep_URL epB)
           NewServiceRegistry threeFailures); by vm_compute.
Defined.

Lemma X13_failures_never_revive_witness :
  isEndpointHealthy
    (reportFailures "acme" "user" (ep_URL epB)
       (UpdateHealthStatus NewServiceRegistry 10 10 "acme" "user" (ep_URL epB) false)
       threeFailures)
    "acme" "user" (ep_URL epB) = false.
Proof.
  apply (X13_failures_never_revive "acme" "user" (ep_URL epB)). by vm_compute.
Defined.

(** ** Selection: what it returns and what it leaves alone *)

Section selection.
Context (draw : Z → Z).
Implicit Types (s : ServiceRegistry) (config : ServiceConfig)
  (endpoints : list ServiceEndpoint).

Lemma roundRobinSelect_member s tenantID serviceName endpoints s' sel :
  endpoints ≠ [] →
  roundRobinSelect s tenantID serviceName endpoints = Some (s', sel) →
  ∃ e, sel = selectionOf e ∧ e ∈ endpoints
       ∧ healthStatus s' = healthStatus s
       ∧ ∀ k, k ≠ lbKey tenantID serviceName →
              loadBalanceIdx s' !! k = loadBalanceIdx s !! k.
Proof.
  intros Hne. rewrite roundRobinSelect_nonempty by done.
  intros (e & He & Hret)%bind_Some. simplify_eq.
  exists e. apply index_Some in He as [_ He].
  repeat split; [by eapply list_elem_of_lookup_2|].
  intros k Hk. simpl. by rewrite lookup_insert_ne.
Qed.

Lemma randomSelect_member endpoints sel :
  endpoints ≠ [] → randomSelect draw endpoints = Some sel →
  ∃ e, sel = selectionOf e ∧ e ∈ endpoints.
Proof.
  intros Hne. rewrite randomSelect_nonempty by done.
  intros (idx & _ & (e & He & Hret)%bind_Some)%bind_Some. simplify_eq.
  exists e. apply index_Some in He as [_ He].
  split; [done|by eapply list_elem_of_lookup_2].
Qed.

Lemma weightedWalk_member r endpoints : ∀ acc e,
  weightedWalk r acc endpoints = Some e → e ∈ endpoints.
Proof.
  induction endpoints as [|ep rest IH]; intros acc e; simpl; [done|].
  case_match; intros Hw; [simplify_eq; left|right; by eapply IH].
Qed.

Lemma weightedSelect_member endpoints sel :
  endpoints ≠ [] → weightedSelect draw endpoints = Some sel →
  ∃ e, sel = selectionOf e ∧ e ∈ endpoints.
Proof.
  intros Hne. destruct endpoints as [|first rest]; [done|].
  rewrite weightedSelect_nonempty. case_match.
  - by apply randomSelect_member.
  - intros (r & _ & Hret)%bind_Some.
    destruct (weightedWalk r 0 (first :: rest)) as [ep|] eqn:Hw; simplify_eq.
    + exists ep. split; [done|by eapply weightedWalk_member].
    + exists first. split; [done|left].
Qed.

Lemma selectEndpoint_weighted s config :
  selectEndpoint s draw (withStrategy config LoadBalanceWeighted)
  = match GetActiveEndpoints config with
    | [] =>
        if bool_decide (ep_URL (sc_PrimaryEndpoint config) ≠ "") then
          Some (s, selectionOf (sc_PrimaryEndpoint config))
        else Some (s, (sc_DefaultServiceURL config, None))
    | _ :: _ =>
        sel ← weightedSelect draw (GetActiveEndpoints config); Some (s, sel)
    end.
Proof.
  unfold selectEndpoint.
  change (GetActiveEndpoints (withStrategy config LoadBalanceWeighted))
    with (GetActiveEndpoints config).
  by destruct (GetActiveEndpoints config).
Qed.

Lemma selectEndpoint_random s config :
  selectEndpoint s draw (withStrategy config LoadBalanceRandom)
  = match GetActiveEndpoints config with
    | [] =>
        if bool_decide (ep_URL (sc_PrimaryEndpoint config) ≠ "") then
          Some (s, selectionOf (sc_PrimaryEndpoint config))
        else Some (s, (sc_DefaultServiceURL config, None))
    | _ :: _ =>
        sel ← randomSelect draw (GetActiveEndpoints config); Some (s, sel)
    end.
Proof.
  unfold selectEndpoint.
  change (GetActiveEndpoints (withStrategy config LoadBalanceRandom))
    with (GetActiveEndpoints config).
  by destruct (GetActiveEndpoints config).
Qed.

(** X15: while the configuration has an active endpoint, whatever
    [selectEndpoint] returns, under any strategy, is one of the active
    endpoints together with its own URL: an inactive endpoint is never
    selected. *)
Theorem X15_selection_is_active s config s' sel :
  GetActiveEndpoints config ≠ [] →
  selectEndpoint s draw config = Some (s', sel) →
  ∃ e, sel = (ep_URL e, Some e)
       ∧ e ∈ GetActiveEndpoints config
       ∧ ep_IsActive e = true.
Proof.
  intros Hne Hsel.
  assert (∃ e, sel = selectionOf e ∧ e ∈ GetActiveEndpoints config)
    as (e & -> & Hin).
  { unfold selectEndpoint in Hsel.
    destruct (GetActiveEndpoints config) as [|e0 rest] eqn:Hact; [done|].
    repeat case_bool_decide;
      try (apply roundRobinSelect_member in Hsel as (e & ? & ? & _);
           [by exists e|done]);
      apply bind_Some in Hsel as (sel0 & Hsel0 & ?); simplify_eq.
    - by apply randomSelect_member in Hsel0.
    - by apply weightedSelect_member in Hsel0. }
  exists e. repeat split; [done|]. by eapply GetActiveEndpoints_active.
Qed.

(** X14: when every endpoint of the configuration is inactive,
    [selectEndpoint] still answers and leaves the registry untouched: it
    returns the primary endpoint, inactive as it is, when its URL is not
    empty, and otherwise the default URL without an endpoint. *)
Theorem X14_no_active_endpoint_returns_primary s config :
  Forall (λ e, ep_IsActive e = false)
    (sc_PrimaryEndpoint config :: sc_FallbackChain config) →
  selectEndpoint s draw config
  = Some (s, if bool_decide (ep_URL (sc_PrimaryEndpoint config) ≠ "")
             then (ep_URL (sc_PrimaryEndpoint config),
                   Some (sc_PrimaryEndpoint config))
             else (sc_DefaultServiceURL config, None)).
Proof.
  intros Hall. apply filter_active_nil in Hall.
  rewrite <-GetActiveEndpoints_filter in Hall.
  unfold selectEndpoint. rewrite Hall. by case_bool_decide.
Qed.

Lemma selectEndpoint_health s config s' sel :
  selectEndpoint s draw config = Some (s', sel) →
  healthStatus s' = healthStatus s.
Proof.
  unfold selectEndpoint.
  destruct (GetActiveEndpoints config) as [|e0 rest] eqn:Hact.
  - case_bool_decide; by intros [= <- _].
  - repeat case_bool_decide;
      try (intros Hsel;
           apply roundRobinSelect_member in Hsel as (? & _ & _ & ? & _);
           done);
      intros (? & _ & ?)%bind_Some; by simplify_eq.
Qed.

Lemma selectEndpoint_withHealth s config hs :
  selectEndpoint (withHealth hs s) draw config
  = (λ r, (withHealth hs r.1, r.2)) <$> selectEndpoint s draw config.
Proof.
  assert (∀ endpoints,
    roundRobinSelect (withHealth hs s)
      (sc_TenantID config) (sc_ServiceName config) endpoints
    = (λ r, (withHealth hs r.1, r.2))
      <$> roundRobinSelect s (sc_TenantID config) (sc_ServiceName config) endpoints)
    as Hrr.
  { intros [|e0 rest]; [done|]. unfold roundRobinSelect. simpl.
    by destruct (index (e0 :: rest) _). }
  unfold selectEndpoint.
  destruct (GetActiveEndpoints config) as [|e0 rest] eqn:Hact.
  - by case_bool_decide.
  - repeat case_bool_decide; try apply Hrr.
    + by destruct (randomSelect draw (e0 :: rest)).
    + by destruct (weightedSelect draw (e0 :: rest)).
Qed.

(** X16: selection does not look at health and does not touch it: the
    health table of the registry is unchanged by [selectEndpoint], and
    replacing the health table by any other one gives the same selection
    and the same cursors. *)
Theorem X16_selection_ignores_health s config hs :
  (∀ s' sel, selectEndpoint s draw config = Some (s', sel) →
             healthStatus s' = healthStatus s)
  ∧ selectEndpoint {| healthStatus := hs; loadBalanceIdx := loadBalanceIdx s |}
      draw config
    = (λ r, ({| healthStatus := hs; loadBalanceIdx := loadBalanceIdx r.1 |}, r.2))
      <$> selectEndpoint s draw config.
Proof.
  split; [intros s' sel; apply selectEndpoint_health|].
  apply selectEndpoint_withHealth.
Qed.

(** X17: a negative sum of weights over the active endpoints makes
    [weightedSelect] panic (it hands the sum to [rand.Intn]), and with it
    [selectEndpoint] under the ["weighted"] strategy. *)
Theorem X17_negative_total_weight_panics s config :
  totalWeight (GetActiveEndpoints config) < 0 →
  weightedSelect draw (GetActiveEndpoints config) = None
  ∧ selectEndpoint s draw (withStrategy config LoadBalanceWeighted) = None.
Proof.
  intros Hneg.
  assert (weightedSelect draw (GetActiveEndpoints config) = None) as Hw.
  { destruct (GetActiveEndpoints config) as [|first rest]; [done|].
    rewrite weightedSelect_nonempty.
    destruct (Z.eqb_spec (totalWeight (first :: rest)) 0); [lia|].
    unfold Intn.
    by destruct (Z.leb_spec (totalWeight (first :: rest)) 0); [|lia]. }
  split; [done|]. rewrite selectEndpoint_weighted.
  destruct (GetActiveEndpoints config) as [|e0 rest] eqn:Hact; [done|].
  by rewrite Hw.
Qed.

End selection.

Section selection_safety.
Context (draw : Z → Z) (Hdraw : draw_in_range draw).
Implicit Types (s : ServiceRegistry) (endpoints : list ServiceEndpoint).

(** X18: from a registry whose cursors are in range, [roundRobinSelect]
    never panics, whatever list it is given and whatever list the cursor
    was stored for: the cursor is reduced modulo the present length. On an
    empty list it returns the empty URL and changes nothing; otherwise it
    changes the cursor of its own key only and keeps the cursors in range. *)
Theorem X18_round_robin_never_panics s tenantID serviceName endpoints :
  cursors_in_range s →
  Z.of_nat (length endpoints) ≤ max_int →
  ∃ s' sel,
    roundRobinSelect s tenantID serviceName endpoints = Some (s', sel)
    ∧ cursors_in_range s'
    ∧ healthStatus s' = healthStatus s
    ∧ (∀ k, k ≠ lbKey tenantID serviceName →
            loadBalanceIdx s' !! k = loadBalanceIdx s !! k)
    ∧ (endpoints = [] → s' = s ∧ sel = ("", None))
    ∧ (endpoints ≠ [] → ∃ e, sel = selectionOf e ∧ e ∈ endpoints).
Proof.
  intros Hs Hlen.
  destruct (decide (endpoints = [])) as [->|Hne].
  - exists s, ("", None).
    split; [done|]. split; [done|]. repeat split; done.
  - pose proof (cursor_in_range tenantID serviceName s Hs) as Hc.
    destruct (roundRobinSelect_step tenantID serviceName endpoints s Hne Hlen Hc)
      as (e & _ & Hstep).
    destruct (roundRobinSelect_member _ _ _ _ _ _ Hne Hstep)
      as (e' & Hsel & Hin & Hhs & Hframe).
    eexists _, _. split; [exact Hstep|].
    split; [by eapply roundRobinSelect_cursors_in_range|].
    split; [done|]. split; [done|]. split; [done|].
    intros _. by exists e'.
Qed.

(** X19: under the ["random"] strategy [selectEndpoint] returns the active
    endpoint at the drawn index and leaves the whole registry, cursors
    included, as it was. *)
Theorem X19_random_leaves_registry s config :
  GetActiveEndpoints config ≠ [] →
  ∃ e,
    index (GetActiveEndpoints config)
      (draw (Z.of_nat (length (GetActiveEndpoints config)))) = Some e
    ∧ selectEndpoint s draw (withStrategy config LoadBalanceRandom)
      = Some (s, (ep_URL e, Some e)).
Proof.
  intros Hne.
  destruct (randomSelect_picks draw Hdraw _ Hne) as (e & He & _ & Hsel).
  exists e. split; [done|]. rewrite selectEndpoint_random.
  destruct (GetActiveEndpoints config) as [|e0 rest] eqn:Hact; [done|].
  by rewrite Hsel.
Qed.

Lemma wrap_int_range (z : Z) : - 2 ^ 63 ≤ wrap_int z < 2 ^ 63.
Proof.
  unfold wrap_int.
  pose proof (Z.mod_pos_bound (z + 2 ^ 63) (2 ^ 64)). lia.
Qed.

Lemma totalWeight_snoc endpoints e :
  totalWeight (endpoints ++ [e]) = int_add (totalWeight endpoints) (ep_Weight e).
Proof. unfold totalWeight. by rewrite foldl_app. Qed.

Lemma totalWeight_range endpoints : - 2 ^ 63 ≤ totalWeight endpoints < 2 ^ 63.
Proof.
  destruct endpoints as [|e0 rest] using rev_ind; [by vm_compute|].
  rewrite totalWeight_snoc. apply wrap_int_range.
Qed.

(** X20: when the sum of weights is positive, the endpoint [weightedSelect]
    returns never has weight zero: an endpoint of weight zero receives no
    traffic under the ["weighted"] strategy. *)
Theorem X20_weighted_skips_zero_weight endpoints :
  0 < totalWeight endpoints →
  ∃ i e,
    endpoints !! i = Some e
    ∧ weightedSelect draw endpoints = Some (selectionOf e)
    ∧ ep_Weight e ≠ 0.
Proof.
  intros Hpos. pose proof (Hdraw _ Hpos) as [Hr0 Hr1].
  destruct (weightedWalk_first (draw (totalWeight endpoints)) endpoints 0)
    as (i & e & Hi & Hw & Hlt & Hmin); [done|done|].
  exists i, e. split; [done|]. split.
  - destruct endpoints as [|first rest]; [done|].
    rewrite weightedSelect_nonempty.
    destruct (Z.eqb_spec (totalWeight (first :: rest)) 0); [lia|].
    unfold Intn.
    destruct (Z.leb_spec (totalWeight (first :: rest)) 0); [lia|].
    simpl mbind. simpl in Hw. by rewrite Hw.
  - intros Hzero.
    fold (totalWeight (take (S i) endpoints)) in Hlt.
    rewrite (take_S_r _ _ _ Hi), totalWeight_snoc, Hzero in Hlt.
    unfold int_add in Hlt. rewrite Z.add_0_r in Hlt.
    rewrite wrap_int_small in Hlt by apply totalWeight_range.
    destruct i as [|i].
    + rewrite take_0 in Hlt. change (totalWeight []) with 0 in Hlt. lia.
    + specialize (Hmin i). fold (totalWeight (take (S i) endpoints)) in Hmin.
      lia.
Qed.

End selection_safety.

Lemma X14_no_active_endpoint_returns_primary_witness :
  selectEndpoint NewServiceRegistry drawLast allInactiveConfig
  = Some (NewServiceRegistry, (ep_URL epA, Some epA)).
Proof.
  rewrite (X14_no_active_endpoint_returns_primary drawLast NewServiceRegistry
             allInactiveConfig); [done|].
  repeat constructor.
Defined.

Lemma X15_selection_is_active_witness :
  ∃ e, (ep_URL epP, Some epP) = (ep_URL e, Some e)
       ∧ e ∈ GetActiveEndpoints tiedConfig
       ∧ ep_IsActive e = true.
Proof.
  apply (X15_selection_is_active drawLast NewServiceRegistry tiedConfig
           {| healthStatus := ∅;
              loadBalanceIdx := {[ lbKey "acme" "user" := 1 ]} |}).
  - by vm_compute.
  - by vm_compute.
Defined.

Lemma X17_negative_total_weight_panics_witness :
  selectEndpoint NewServiceRegistry drawLast
    (withStrategy negativeWeightConfig LoadBalanceWeighted) = None.
Proof.
  by destruct (X17_negative_total_weight_panics drawLast NewServiceRegistry
                 negativeWeightConfig) as [_ ?]; [by vm_compute|].
Defined.

Lemma X18_round_robin_never_panics_witness :
  ∃ s' sel,
    roundRobinSelect
      {| healthStatus := ∅; loadBalanceIdx := {[ lbKey "acme" "user" := 7 ]} |}
      "acme" "user" [epP; epF1; epF2] = Some (s', sel)
    ∧ cursors_in_range s'.
Proof.
  destruct (X18_round_robin_never_panics
              {| healthStatus := ∅; loadBalanceIdx := {[ lbKey "acme" "user" := 7 ]} |}
              "acme" "user" [epP; epF1; epF2])
    as (s' & sel & Hrun & Hrange & _).
  - intros k v. simpl. rewrite lookup_singleton_Some.
    intros [_ <-]. by vm_compute.
  - by vm_compute.
  - by exists s', sel.
Defined.

Lemma X19_random_leaves_registry_witness :
  ∃ e, selectEndpoint NewServiceRegistry drawLast
         (withStrategy tiedConfig LoadBalanceRandom)
       = Some (NewServiceRegistry, (ep_URL e, Some e)).
Proof.
  assert (draw_in_range drawLast) as Hdraw
    by (intros n Hn; unfold drawLast; lia).
  destruct (X19_random_leaves_registry drawLast Hdraw NewServiceRegistry tiedConfig)
    as (e & _ & Hsel); [done|].
  by exists e.
Defined.

Lemma X20_weighted_skips_zero_weight_witness :
  ∃ i e, [epP; epF1; epF2] !! i = Some e
         ∧ weightedSelect drawLast [epP; epF1; epF2] = Some (selectionOf e)
         ∧ ep_Weight e ≠ 0.
Proof.
  assert (draw_in_range drawLast) as Hdraw
    by (intros n Hn; unfold drawLast; lia).
  apply (X20_weighted_skips_zero_weight drawLast Hdraw [epP; epF1; epF2]).
  by vm_compute.
Defined.

(** ** The fallback walk as a first-match search *)

Section first_usable.
Context (s : ServiceRegistry) (now : Time) (config : ServiceConfig).

Local Abbreviation tenantID := (sc_TenantID config).
Local Abbreviation serviceName := (sc_ServiceName config).
Local Abbreviation declared :=
  (sc_PrimaryEndpoint config :: sc_FallbackChain config).
Local Abbreviation usable :=
  (λ e, usableEndpoint s tenantID serviceName e = true).
Local Abbreviation resolved := (ResolveFallbackChain s now config).

Lemma walkFallbackChain_find chain : ∀ attempted,
  walkFallbackChain s tenantID serviceName chain attempted
  = match list_find usable chain with
    | Some (i, e) => (Some e, attempted ++ (ep_URL <$> take i chain))
    | None => (None, attempted ++ (ep_URL <$> chain))
    end.
Proof.
  induction chain as [|e chain IH]; intros attempted; simpl.
  - by rewrite app_nil_r.
  - change (ep_IsActive e && isEndpointHealthy s tenantID serviceName (ep_URL e))
      with (usableEndpoint s tenantID serviceName e).
    case_decide as Hu.
    + by rewrite Hu, app_nil_r.
    + apply not_true_is_false in Hu. rewrite Hu, IH.
      destruct (list_find usable chain) as [[i e']|]; simpl;
        by rewrite <-app_assoc.
Qed.

(** The whole resolution in terms of the search over the declared list. *)
Lemma ResolveFallbackChain_find :
  match list_find usable declared with
  | Some (i, e) =>
      resolved.2 = None
      ∧ res_ResolvedURL resolved.1 = ep_URL e
      ∧ res_UsedEndpoint resolved.1 = Some e
      ∧ res_IsDefault resolved.1 = false
      ∧ res_Success resolved.1 = true
      ∧ res_Error resolved.1 = ""
      ∧ res_AttemptedURLs resolved.1 = ep_URL <$> take i declared
  | None =>
      res_UsedEndpoint resolved.1 = None
      ∧ res_AttemptedURLs resolved.1 = ep_URL <$> declared
      ∧ res_ResolvedURL resolved.1 = sc_DefaultServiceURL config
      ∧ res_IsDefault resolved.1 = bool_decide (sc_DefaultServiceURL config ≠ "")
      ∧ res_Success resolved.1 = bool_decide (sc_DefaultServiceURL config ≠ "")
      ∧ (sc_DefaultServiceURL config ≠ "" →
           resolved.2 = None ∧ res_Error resolved.1 = "")
      ∧ (sc_DefaultServiceURL config = "" →
           resolved.2 = Some "no healthy endpoints available"
           ∧ res_Error resolved.1 = "all endpoints in fallback chain are unhealthy")
  end.
Proof.
  unfold ResolveFallbackChain. simpl list_find.
  change (ep_IsActive (sc_PrimaryEndpoint config)
          && isEndpointHealthy s tenantID serviceName
               (ep_URL (sc_PrimaryEndpoint config)))
    with (usableEndpoint s tenantID serviceName (sc_PrimaryEndpoint config)).
  case_decide as Hu; [by rewrite Hu|].
  apply not_true_is_false in Hu. rewrite Hu, walkFallbackChain_find.
  destruct (list_find usable (sc_FallbackChain config)) as [[i e]|]; simpl.
  - done.
  - case_bool_decide as Hd; simpl; repeat split; try done.
Qed.

(** X21: [ResolveFallbackChain] is a first-match search over the primary
    followed by the fallback chain in declared order (priorities play no
    part): it returns the first endpoint that is active and healthy, and
    [AttemptedURLs] lists the URLs of all endpoints declared before it;
    when no endpoint qualifies, [AttemptedURLs] lists every declared URL. *)
Theorem X21_resolution_is_first_match :
  let r := ResolveFallbackChain s now config in
  (∀ i e,
     declared !! i = Some e →
     usableEndpoint s tenantID serviceName e = true →
     (∀ j e', (j < i)%nat → declared !! j = Some e' →
              usableEndpoint s tenantID serviceName e' ≠ true) →
     res_UsedEndpoint r.1 = Some e
     ∧ res_ResolvedURL r.1 = ep_URL e
     ∧ res_AttemptedURLs r.1 = ep_URL <$> take i declared
     ∧ r.2 = None)
  ∧ (Forall (λ e, usableEndpoint s tenantID serviceName e ≠ true) declared →
       res_UsedEndpoint r.1 = None
       ∧ res_AttemptedURLs r.1 = ep_URL <$> declared).
Proof.
  intros r. subst r.
  pose proof ResolveFallbackChain_find as Hfind. split.
  - intros i e Hi Hu Hfirst.
    assert (list_find usable declared = Some (i, e)) as Hlf
      by (apply list_find_Some; eauto).
    rewrite Hlf in Hfind. by destruct Hfind as (? & ? & ? & _ & _ & _ & ?).
  - intros Hnone.
    assert (list_find usable declared = None) as Hlf
      by by apply list_find_None.
    rewrite Hlf in Hfind. by destruct Hfind as (? & ? & _).
Qed.

(** X22: what a resolution can return. An endpoint it returns is declared
    in the configuration, active and healthy, and comes with its own URL
    and [IsDefault = false]; [Success] holds exactly when the error is
    [nil]; and a failed resolution has tried every declared URL and found
    the default URL empty. *)
Theorem X22_resolution_is_safe :
  (∀ e, res_UsedEndpoint resolved.1 = Some e →
        e ∈ declared
        ∧ ep_IsActive e = true
        ∧ isEndpointHealthy s tenantID serviceName (ep_URL e) = true
        ∧ res_ResolvedURL resolved.1 = ep_URL e
        ∧ res_IsDefault resolved.1 = false)
  ∧ (res_Success resolved.1 = true ↔ resolved.2 = None)
  ∧ (res_Success resolved.1 = false →
       sc_DefaultServiceURL config = ""
       ∧ res_ResolvedURL resolved.1 = ""
       ∧ res_AttemptedURLs resolved.1 = ep_URL <$> declared
       ∧ Forall (λ e, usableEndpoint s tenantID serviceName e ≠ true) declared).
Proof.
  pose proof ResolveFallbackChain_find as Hfind.
  destruct (list_find usable declared) as [[i e]|] eqn:Hlf.
  - destruct Hfind as (Herr & Hurl & Hused & Hdef & Hsucc & _ & _).
    apply list_find_Some in Hlf as (Hi & Hu & _).
    apply andb_true_iff in Hu as [Hact Hh].
    split; [|split].
    + intros e' He'. rewrite Hused in He'. simplify_eq.
      repeat split; try done. by eapply list_elem_of_lookup_2.
    + by rewrite Hsucc, Herr.
    + by rewrite Hsucc.
  - destruct Hfind as (Hused & Hatt & Hurl & _ & Hsucc & Hok & Hfail).
    apply list_find_None in Hlf.
    split; [|split].
    + intros e He. by rewrite Hused in He.
    + rewrite Hsucc. case_bool_decide as Hd.
      * by destruct (Hok Hd) as [-> _].
      * destruct (Hfail Hd) as [-> _]. by split.
    + rewrite Hsucc. case_bool_decide as Hd; [done|]. intros _.
      by rewrite Hurl, Hd.
Qed.

(** X23: evicting the health record of an active primary puts it back in
    service: the next resolution returns the primary, with nothing
    attempted, however unhealthy it had been reported. *)
Theorem X23_eviction_restores_primary :
  ep_IsActive (sc_PrimaryEndpoint config) = true →
  let r := ResolveFallbackChain
             (InvalidateCache s tenantID serviceName
                (ep_URL (sc_PrimaryEndpoint config))) now config in
  r.2 = None
  ∧ res_UsedEndpoint r.1 = Some (sc_PrimaryEndpoint config)
  ∧ res_ResolvedURL r.1 = ep_URL (sc_PrimaryEndpoint config)
  ∧ res_IsDefault r.1 = false
  ∧ res_AttemptedURLs r.1 = [].
Proof.
  intros Hact r. subst r.
  assert (isEndpointHealthy
            (InvalidateCache s tenantID serviceName
               (ep_URL (sc_PrimaryEndpoint config)))
            tenantID serviceName (ep_URL (sc_PrimaryEndpoint config)) = true)
    as Hh.
  { unfold isEndpointHealthy. simpl. by rewrite lookup_delete_eq. }
  unfold ResolveFallbackChain. by rewrite Hact, Hh.
Qed.

End first_usable.

Lemma X23_eviction_restores_primary_witness :
  let s := reportFailures "acme" "user" (ep_URL epP) NewServiceRegistry
             threeFailures in
  res_UsedEndpoint (ResolveFallbackChain s 20 tiedConfig).1 = Some epF1
  ∧ res_UsedEndpoint
      (ResolveFallbackChain (InvalidateCache s "acme" "user" (ep_URL epP))
         20 tiedConfig).1 = Some epP.
Proof.
  intros s. split; [by vm_compute|].
  by destruct (X23_eviction_restores_primary s 20 tiedConfig) as (_ & ? & _).
Defined.

(** ** Resolution through the configuration store *)

Section get_service_url.
Context (draw : Z → Z) (now : Time).
Context (found : option ServiceConfig * option Error).
Context (defaultFound : option DefaultServiceConfig * option Error).
Context (tenantID serviceName : string).
Implicit Types (s : ServiceRegistry).

Local Abbreviation resolve s :=
  (GetServiceURL s draw now found defaultFound tenantID serviceName).

(** The second half of [GetServiceURL]: the outcome once the tenant path
    has given nothing. *)
Lemma GetServiceURL_default_outcome (r : FallbackChainResult) (err : option Error) :
  (r, err)
  = match defaultFound with
    | (_, Some e) =>
        ({| res_TenantID := tenantID; res_ServiceName := serviceName;
            res_ResolvedURL := ""; res_UsedEndpoint := None;
            res_IsDefault := false; res_AttemptedURLs := [];
            res_AttemptedAt := now; res_Success := false;
            res_Error := "failed to resolve service URL: " +:+ errorMessage e |},
         Some ErrServiceNotFound)
    | (None, None) =>
        ({| res_TenantID := tenantID; res_ServiceName := serviceName;
            res_ResolvedURL := ""; res_UsedEndpoint := None;
            res_IsDefault := false; res_AttemptedURLs := [];
            res_AttemptedAt := now; res_Success := false;
            res_Error := "no configuration found for service" |},
         Some ErrServiceNotFound)
    | (Some d, None) =>
        ({| res_TenantID := tenantID; res_ServiceName := serviceName;
            res_ResolvedURL := dc_DefaultURL d; res_UsedEndpoint := None;
            res_IsDefault := true; res_AttemptedURLs := [];
            res_AttemptedAt := now; res_Success := true; res_Error := "" |},
         None)
    end →
  res_AttemptedURLs r = []
  ∧ (res_Success r = true ↔ err = None)
  ∧ (err = None →
       res_IsDefault r = true ∧ res_UsedEndpoint r = None ∧ res_Error r = "")
  ∧ (∀ e, err = Some e →
          e = ErrServiceNotFound ∧ res_ResolvedURL r = ""
          ∧ res_IsDefault r = false ∧ res_Error r ≠ ""
          ∧ res_Error r ≠ errorMessage ErrServiceNotFound).
Proof.
  destruct defaultFound as [[d|] [e|]]; intros [= -> ->]; simpl;
    repeat split; try done; intros; by simplify_eq.
Qed.

Lemma GetServiceURL_cases s s' r err :
  resolve s = Some (s', (r, err)) →
  (∃ config sel,
     found.1 = Some config ∧ sc_IsActive config = true
     ∧ selectEndpoint s draw config = Some (s', sel) ∧ sel.1 ≠ ""
     ∧ err = None
     ∧ r = {| res_TenantID := tenantID; res_ServiceName := serviceName;
              res_ResolvedURL := sel.1; res_UsedEndpoint := sel.2;
              res_IsDefault := false; res_AttemptedURLs := [];
              res_AttemptedAt := now; res_Success := true; res_Error := "" |})
  ∨ (healthStatus s' = healthStatus s
     ∧ res_AttemptedURLs r = []
     ∧ (res_Success r = true ↔ err = None)
     ∧ (err = None →
          res_IsDefault r = true ∧ res_UsedEndpoint r = None ∧ res_Error r = "")
     ∧ (∀ e, err = Some e →
             e = ErrServiceNotFound ∧ res_ResolvedURL r = ""
             ∧ res_IsDefault r = false ∧ res_Error r ≠ ""
             ∧ res_Error r ≠ errorMessage ErrServiceNotFound)).
Proof.
  unfold GetServiceURL.
  destruct (found.1) as [config|] eqn:Hfound.
  - destruct (sc_IsActive config) eqn:Hact.
    + destruct (selectEndpoint s draw config) as [[s1 sel]|] eqn:Hsel; [|done].
      simpl. case_bool_decide as Hurl.
      * intros [= <- <- <-]. left. by exists config, sel.
      * intros Hret. right.
        split; [|apply GetServiceURL_default_outcome].
        -- apply selectEndpoint_health in Hsel.
           destruct defaultFound as [[d|] [e|]]; by simplify_eq.
        -- destruct defaultFound as [[d|] [e|]]; by simplify_eq.
    + intros Hret. right.
      split; [|apply GetServiceURL_default_outcome];
        destruct defaultFound as [[d|] [e|]]; by simplify_eq.
  - intros Hret. right.
    split; [|apply GetServiceURL_default_outcome];
      destruct defaultFound as [[d|] [e|]]; by simplify_eq.
Qed.

(** X24: with an active tenant configuration whose active endpoints all
    have a URL, whatever [selectEndpoint] picks is returned as a
    non-default success: the result carries the URL and the endpoint of
    that very selection and the registry is the one the selection left; the
    endpoint is one of the active ones, the error is [nil], an error of the
    repository read is ignored and the default configuration plays no
    part. *)
Theorem X24_tenant_configuration_wins s config s' sel :
  found.1 = Some config → sc_IsActive config = true →
  GetActiveEndpoints config ≠ [] →
  Forall (λ e, ep_URL e ≠ "") (GetActiveEndpoints config) →
  selectEndpoint s draw config = Some (s', sel) →
  resolve s
  = Some (s', ({| res_TenantID := tenantID; res_ServiceName := serviceName;
                  res_ResolvedURL := sel.1; res_UsedEndpoint := sel.2;
                  res_IsDefault := false; res_AttemptedURLs := [];
                  res_AttemptedAt := now; res_Success := true;
                  res_Error := "" |}, None))
  ∧ ∃ e, sel = (ep_URL e, Some e) ∧ e ∈ GetActiveEndpoints config
         ∧ ep_IsActive e = true.
Proof.
  intros Hfound Hact Hne Hurls Hsel.
  assert (∃ e, sel = selectionOf e ∧ e ∈ GetActiveEndpoints config)
    as (e & -> & Hin).
  { unfold selectEndpoint in Hsel.
    destruct (GetActiveEndpoints config) as [|e0 rest] eqn:Heps; [done|].
    repeat case_bool_decide;
      try (apply roundRobinSelect_member in Hsel as (e & ? & ? & _);
           [by exists e|done]);
      apply bind_Some in Hsel as (sel0 & Hsel0 & ?); simplify_eq.
    - by apply randomSelect_member in Hsel0.
    - by apply weightedSelect_member in Hsel0. }
  split.
  - rewrite Forall_forall in Hurls. specialize (Hurls e Hin).
    unfold GetServiceURL. rewrite Hfound, Hact, Hsel. simpl.
    by rewrite bool_decide_true.
  - exists e. repeat split; [done|]. by eapply GetActiveEndpoints_active.
Qed.

(** X25: every way [GetServiceURL] can end. [AttemptedURLs] is always
    empty; [Success] holds exactly when the error is [nil]; the only error
    ever returned is [ErrServiceNotFound], with an empty URL and a
    non-empty [Error] text; a default result carries no endpoint; and the
    health table is never changed. *)
Theorem X25_GetServiceURL_outcomes s s' r err :
  resolve s = Some (s', (r, err)) →
  healthStatus s' = healthStatus s
  ∧ res_AttemptedURLs r = []
  ∧ (res_Success r = true ↔ err = None)
  ∧ (res_IsDefault r = true → res_UsedEndpoint r = None)
  ∧ (∀ e, err = Some e →
          e = ErrServiceNotFound ∧ res_ResolvedURL r = ""
          ∧ res_IsDefault r = false ∧ res_Error r ≠ "").
Proof.
  intros Hret. apply GetServiceURL_cases in Hret
    as [(config & sel & _ & _ & Hsel & _ & -> & ->)
       |(Hhs & Hatt & Hsucc & Hdef & Herr)].
  - apply selectEndpoint_health in Hsel. by repeat split.
  - split; [done|]. split; [done|]. split; [done|]. split.
    + intros Hd. destruct err as [e|]; [|by apply Hdef].
      destruct (Herr e eq_refl) as (_ & _ & Hnd & _). congruence.
    + intros e He. by destruct (Herr e He) as (? & ? & ? & ? & _).
Qed.

(** X26: [GetServiceURL] never consults the health table: with any other
    health table in the registry it resolves to the same result, the same
    error and the same cursors. An endpoint reported unhealthy is handed
    out all the same. *)
Theorem X26_GetServiceURL_ignores_health s hs :
  resolve (withHealth hs s) = (λ o, (withHealth hs o.1, o.2)) <$> resolve s.
Proof.
  unfold GetServiceURL.
  destruct (found.1) as [config|]; [destruct (sc_IsActive config)|].
  - rewrite selectEndpoint_withHealth.
    destruct (selectEndpoint s draw config) as [[s1 sel]|]; simpl; [|done].
    case_bool_decide; [done|].
    by destruct defaultFound as [[d|] [e|]].
  - by destruct defaultFound as [[d|] [e|]].
  - by destruct defaultFound as [[d|] [e|]].
Qed.

(** X27: the response of the [GetServiceURL] handler. It reports success
    exactly when the registry returned no error; on an error it carries the
    text of [ErrServiceNotFound] and an empty URL (the more detailed
    [Error] of the result is dropped); otherwise it repeats the URL, the
    default flag and the error text of the result. *)
Theorem X27_handler_response s s' r err :
  resolve s = Some (s', (r, err)) →
  let response := grpc.GetServiceURL (r, err) in
  (grpc.RespSuccess response = true ↔ err = None)
  ∧ grpc.RespAttemptedUrls response = []
  ∧ (err = None →
       grpc.RespUrl response = res_ResolvedURL r
       ∧ grpc.RespIsDefault response = res_IsDefault r
       ∧ grpc.RespError response = "")
  ∧ (err ≠ None →
       grpc.RespUrl response = ""
       ∧ grpc.RespError response = "service configuration not found"
       ∧ grpc.RespError response ≠ res_Error r).
Proof.
  intros Hret response. subst response.
  apply GetServiceURL_cases in Hret
    as [(config & sel & _ & _ & _ & _ & -> & ->)
       |(_ & Hatt & Hsucc & Hdef & Herr)].
  - simpl. by repeat split.
  - destruct err as [e|]; simpl.
    + destruct (Herr e eq_refl) as (-> & Hurl & _ & _ & Hne). simpl.
      split; [done|]. split; [done|]. split; [done|].
      intros _. split; [done|]. split; [done|]. by intros Heq.
    + destruct (Hdef eq_refl) as (_ & _ & Herr0).
      split; [apply Hsucc|]. split; [done|]. by split.
Qed.

End get_service_url.

Lemma X24_tenant_configuration_wins_witness :
  let s := {| healthStatus := ∅;
              loadBalanceIdx := {[ lbKey "acme" "user" := 1 ]} |} in
  let s' := {| healthStatus := ∅;
               loadBalanceIdx := {[ lbKey "acme" "user" := 2 ]} |} in
  GetServiceURL s drawLast 20 foundTied
    (None, Some (Errorf "connection refused")) "acme" "user"
  = Some (s', ({| res_TenantID := "acme"; res_ServiceName := "user";
                  res_ResolvedURL := ep_URL epF1; res_UsedEndpoint := Some epF1;
                  res_IsDefault := false; res_AttemptedURLs := [];
                  res_AttemptedAt := 20; res_Success := true;
                  res_Error := "" |}, None)).
Proof.
  intros s s'.
  destruct (X24_tenant_configuration_wins drawLast 20 foundTied
              (None, Some (Errorf "connection refused")) "acme" "user"
              s tiedConfig s' (selectionOf epF1)) as [Hres _].
  - done.
  - done.
  - done.
  - repeat constructor; by vm_compute.
  - by vm_compute.
  - exact Hres.
Defined.

Lemma X25_GetServiceURL_outcomes_witness :
  ∃ s' r,
    GetServiceURL NewServiceRegistry drawLast 20 foundNothing foundNothing
      "acme" "user" = Some (s', (r, Some ErrServiceNotFound))
    ∧ res_Success r = false
    ∧ res_ResolvedURL r = "".
Proof.
  eexists _, _. split; [by vm_compute|].
  match goal with
  | |- res_Success ?r = _ ∧ _ =>
      destruct (X25_GetServiceURL_outcomes drawLast 20 foundNothing foundNothing
                  "acme" "user" NewServiceRegistry NewServiceRegistry r
                  (Some ErrServiceNotFound))
        as (_ & _ & Hsucc & _ & Herr); [by vm_compute|]
  end.
  split; [|by destruct (Herr _ eq_refl) as (_ & ? & _)].
  apply not_true_is_false. intros Hs. by apply Hsucc in Hs.
Defined.

Lemma X27_handler_response_witness :
  grpc.RespError
    (grpc.GetServiceURL
       ({| res_TenantID := "acme"; res_ServiceName := "user";
           res_ResolvedURL := ""; res_UsedEndpoint := None;
           res_IsDefault := false; res_AttemptedURLs := [];
           res_AttemptedAt := 20; res_Success := false;
           res_Error := "no configuration found for service" |},
        Some ErrServiceNotFound))
  = "service configuration not found".
Proof.
  destruct (X27_handler_response drawLast 20 foundNothing foundNothing
              "acme" "user" NewServiceRegistry NewServiceRegistry
              {| res_TenantID := "acme"; res_ServiceName := "user";
                 res_ResolvedURL := ""; res_UsedEndpoint := None;
                 res_IsDefault := false; res_AttemptedURLs := [];
                 res_AttemptedAt := 20; res_Success := false;
                 res_Error := "no configuration found for service" |}
              (Some ErrServiceNotFound)) as (_ & _ & _ & Herr);
    [by vm_compute|].
  by destruct Herr as (_ & ? & _).
Defined.

(** ** The wire facade *)

Section wire.

Lemma to_int32_id (z : Z) : grpc.to_int32 z = z ↔ in_int32 z.
Proof.
  unfold grpc.to_int32, in_int32. split.
  - intros <-. pose proof (Z.mod_pos_bound (z + 2 ^ 31) (2 ^ 32)). lia.
  - intros Hz. rewrite Z.mod_small by lia. lia.
Qed.

Lemma to_int32_range (z : Z) : in_int32 (grpc.to_int32 z).
Proof.
  unfold grpc.to_int32, in_int32.
  pose proof (Z.mod_pos_bound (z + 2 ^ 31) (2 ^ 32)). lia.
Qed.

(** X28: an endpoint survives the trip to the wire and back exactly when
    its priority, weight and timeout fit in 32 bits (otherwise they come
    back truncated); a health-check policy likewise; and a wire endpoint
    with [int32] numbers survives the opposite trip unchanged. *)
Theorem X28_wire_round_trips (e : domain.ServiceEndpoint)
    (hc : domain.HealthCheckConfig) (p : grpc.ServiceEndpoint) :
  (grpc.fromProtoServiceEndpoint (Some (grpc.toProtoServiceEndpoint e)) = Some e
   ↔ in_int32 (ep_Priority e) ∧ in_int32 (ep_Weight e) ∧ in_int32 (ep_Timeout e))
  ∧ (grpc.fromProtoHealthCheck (Some (grpc.toProtoHealthCheck hc)) = Some hc
     ↔ in_int32 (hc_Interval hc) ∧ in_int32 (hc_Timeout hc)
       ∧ in_int32 (hc_FailThreshold hc))
  ∧ (in_int32 (grpc.Priority p) → in_int32 (grpc.Weight p) →
     in_int32 (grpc.Timeout p) →
     grpc.toProtoServiceEndpoint <$> grpc.fromProtoServiceEndpoint (Some p)
     = Some p).
Proof.
  split; [|split].
  - destruct e as [u pr w t h a]. simpl. rewrite <-!to_int32_id. split.
    + by intros [= H1 H2 H3].
    + intros (H1 & H2 & H3). by rewrite H1, H2, H3.
  - destruct hc as [en pa m i t f]. simpl. rewrite <-!to_int32_id. split.
    + by intros [= H1 H2 H3].
    + intros (H1 & H2 & H3). by rewrite H1, H2, H3.
  - destruct p as [u pr w t h a]. simpl.
    intros H1%to_int32_id H2%to_int32_id H3%to_int32_id.
    unfold grpc.toProtoServiceEndpoint. simpl. by rewrite H1, H2, H3.
Qed.

Lemma fromProtoServiceEndpoint_is_Some (o : option grpc.ServiceEndpoint) :
  is_Some (grpc.fromProtoServiceEndpoint o) ↔ is_Some o.
Proof. destruct o; simpl; split; intros [? ?]; by eauto. Qed.

Lemma fromProtoHealthCheck_is_Some (o : option grpc.HealthCheckConfig) :
  is_Some (grpc.fromProtoHealthCheck o) ↔ is_Some o.
Proof. destruct o; simpl; split; intros [? ?]; by eauto. Qed.

Lemma mapM_Some_fmap {A B} (f : A → option B) (l : list A) (k : list B) :
  mapM f l = Some k → f <$> l = Some <$> k.
Proof.
  rewrite mapM_Some. induction 1 as [|x y l k Hxy _ IH]; [done|].
  by rewrite !fmap_cons, Hxy, IH.
Qed.

(** X29: [fromProtoServiceConfig] panics exactly when the message, its
    primary endpoint, its health check or one entry of its fallback chain
    is a nil pointer; otherwise it copies the scalar fields and converts
    the primary, the health check and every fallback entry, keeping the
    chain in order and length. *)
Theorem X29_fromProtoServiceConfig_nil_panics (proto : option grpc.ServiceConfig) :
  (is_Some (grpc.fromProtoServiceConfig proto) ↔
     ∃ p, proto = Some p
          ∧ is_Some (grpc.PrimaryEndpoint p)
          ∧ is_Some (grpc.HealthCheck p)
          ∧ Forall is_Some (grpc.FallbackChain p))
  ∧ (∀ p config,
       proto = Some p → grpc.fromProtoServiceConfig proto = Some config →
       sc_TenantID config = grpc.TenantId p
       ∧ sc_ServiceName config = grpc.ServiceName p
       ∧ sc_DefaultServiceURL config = grpc.DefaultServiceUrl p
       ∧ sc_LoadBalanceStrategy config = grpc.LoadBalanceStrategy p
       ∧ sc_IsActive config = grpc.ConfigIsActive p
       ∧ sc_Metadata config = grpc.Metadata p
       ∧ grpc.fromProtoServiceEndpoint (grpc.PrimaryEndpoint p)
         = Some (sc_PrimaryEndpoint config)
       ∧ grpc.fromProtoHealthCheck (grpc.HealthCheck p)
         = Some (sc_HealthCheck config)
       ∧ grpc.fromProtoServiceEndpoint <$> grpc.FallbackChain p
         = Some <$> sc_FallbackChain config
       ∧ length (sc_FallbackChain config) = length (grpc.FallbackChain p)).
Proof.
  split.
  - destruct proto as [p|]; [|split; [by intros [? ?]|by intros (? & ? & _)]].
    assert (is_Some (mapM grpc.fromProtoServiceEndpoint (grpc.FallbackChain p))
            ↔ Forall is_Some (grpc.FallbackChain p)) as Hchain.
    { rewrite mapM_is_Some. apply Forall_iff. intros o. simpl.
      by rewrite fromProtoServiceEndpoint_is_Some. }
    split.
    + intros [config Hconv]. simpl in Hconv.
      apply bind_Some in Hconv as (chain & Hc & Hconv).
      apply bind_Some in Hconv as (primary & Hp & Hconv).
      apply bind_Some in Hconv as (hc & Hh & _).
      exists p. split; [done|].
      split; [apply fromProtoServiceEndpoint_is_Some; by eexists|].
      split; [apply fromProtoHealthCheck_is_Some; by eexists|].
      apply Hchain. by eexists.
    + intros (p' & [= <-] & Hp & Hh & Hc).
      apply fromProtoServiceEndpoint_is_Some in Hp as [primary Hp].
      apply fromProtoHealthCheck_is_Some in Hh as [hc Hh].
      apply Hchain in Hc as [chain Hc].
      simpl. rewrite Hc. simpl. rewrite Hp. simpl. rewrite Hh. simpl. by eexists.
  - intros p config -> Hconv. simpl in Hconv.
    apply bind_Some in Hconv as (chain & Hchain & Hconv).
    apply bind_Some in Hconv as (primary & Hprimary & Hconv).
    apply bind_Some in Hconv as (hc & Hhc & Hconv).
    simplify_eq. simpl.
    apply mapM_Some_fmap in Hchain as Hfmap.
    repeat split; try done.
    apply (f_equal length) in Hfmap. by rewrite !length_fmap in Hfmap.
Qed.

(** X30: for a configuration the store returned, [GetServiceHealth] lists
    one entry per declared endpoint, the primary first and then the
    fallback chain in its order, inactive endpoints included; each entry
    carries the health [isEndpointHealthy] reports for that endpoint under
    the tenant and service of the request, and an endpoint without a record
    appears healthy under its own URL with zero failures. A read that found
    nothing yields [ErrServiceNotFound], a failed read its own error. *)
Theorem X30_GetServiceHealth_lists_declared (s : ServiceRegistry)
    (format : Time → string) (clock : nat → Time)
    (found : option domain.ServiceConfig * option Error)
    (tenantId serviceName : string) :
  let out := grpc.GetServiceHealth s format clock found tenantId serviceName in
  (∀ config, found = (Some config, None) →
     ∃ healths,
       out = (Some healths, None)
       ∧ length healths = S (length (sc_FallbackChain config))
       ∧ ∀ i e,
           (sc_PrimaryEndpoint config :: sc_FallbackChain config) !! i = Some e →
           ∃ h, healths !! i = Some h
                ∧ grpc.IsHealthy h
                  = isEndpointHealthy s tenantId serviceName (ep_URL e)
                ∧ (healthStatus s !! healthKey tenantId serviceName (ep_URL e)
                   = None →
                   grpc.EndpointUrl h = ep_URL e
                   ∧ grpc.ConsecutiveFails h = 0))
  ∧ (found = (None, None) → out = (None, Some ErrServiceNotFound))
  ∧ (∀ config err, found = (config, Some err) → out = (None, Some err)).
Proof.
  intros out. subst out. split; [|split].
  - intros config ->. eexists. split; [reflexivity|].
    split; [simpl; by rewrite length_imap|].
    assert (∀ now u,
      grpc.IsHealthy (grpc.toProtoServiceHealth format
                        (GetHealthStatus s now tenantId serviceName u))
      = isEndpointHealthy s tenantId serviceName u
      ∧ (healthStatus s !! healthKey tenantId serviceName u = None →
         grpc.EndpointUrl (grpc.toProtoServiceHealth format
                             (GetHealthStatus s now tenantId serviceName u)) = u
         ∧ grpc.ConsecutiveFails
             (grpc.toProtoServiceHealth format
                (GetHealthStatus s now tenantId serviceName u)) = 0)) as Hentry.
    { intros now u. unfold GetHealthStatus, isEndpointHealthy.
      destruct (healthStatus s !! healthKey tenantId serviceName u);
        split; try done. }
    intros [|i] e Hi; simpl in Hi.
    + simplify_eq. eexists. split; [reflexivity|]. apply Hentry.
    + eexists. split.
      * simpl. rewrite list_lookup_imap, Hi. reflexivity.
      * apply Hentry.
  - by intros ->.
  - intros [config|] err ->; done.
Qed.

End wire.
